(** * Order management service: a shallow embedding and its properties

    The development follows [server/services/orderService.ts] and the
    schemas of [shared/orders.ts].  The service object holds two mutable
    arrays, [orders] and [notifications]; every method is modelled as a
    function from the service state to a result and the next state.

    Conventions of the embedding:
    - a JavaScript [number] is an exact rational ([Qc]), and sums,
      products and quotients are those of the rationals: they are the
      host's wherever its floating-point arithmetic does not round, as on
      whole numbers; array lengths and indices are [nat];
    - a JavaScript string is a [string] of code units;
    - an optional property is an [option]; [None] is a missing key;
    - the readings of the host clock and of the identifier generator that a
      method consumes are passed in as a [Host] record. *)

From Stdlib Require Import ZArith QArith Qcanon Qround Bool.
From Stdlib Require Import Ascii String DecimalString DecimalNat.
From stdpp Require Import base decidable option numbers list sorting strings.

Local Open Scope string_scope.
Local Open Scope list_scope.
Local Open Scope Z_scope.

(** ** Built-ins of the host language *)

Module JS.

(** [s.toLowerCase()] on the ASCII letters; other code units are kept. *)
Definition lower_ascii (c : ascii) : ascii :=
  let n := N_of_ascii c in
  if ((65 <=? n) && (n <=? 90))%N then ascii_of_N (n + 32) else c.

Fixpoint toLowerCase (s : string) : string :=
  match s with
  | EmptyString => EmptyString
  | String c s' => String (lower_ascii c) (toLowerCase s')
  end.

(** [s.startsWith(t)] and [s.includes(t)]. *)
Fixpoint startsWith (s t : string) {struct t} : bool :=
  match t, s with
  | EmptyString, _ => true
  | String _ _, EmptyString => false
  | String b t', String a s' => bool_decide (a = b) && startsWith s' t'
  end.

Fixpoint includes (s t : string) : bool :=
  startsWith s t ||
  match s with
  | EmptyString => false
  | String _ s' => includes s' t
  end.

(** [String(n)] for a non-negative integer [n]. *)
Definition String_of_nat (n : nat) : string :=
  NilZero.string_of_uint (Nat.to_uint n).

(** [s.padStart(n, c)] with a one-unit filler [c]. *)
Definition padStart (n : nat) (c : ascii) (s : string) : string :=
  string_of_list_ascii (replicate (n - String.length s)%nat c) +:+ s.

(** [ToIntegerOrInfinity]: truncation towards zero. *)
Definition ToInteger (x : Qc) : Z :=
  if Qclt_le_dec x 0 then Qceiling x else Qfloor x.

(** A relative index of [slice]: negative values count from the end, and
    the result is clamped to the array. *)
Definition relIndex (len : nat) (x : Qc) : nat :=
  let r := ToInteger x in
  if r <? 0 then Z.to_nat (Z.max (Z.of_nat len + r) 0)
  else Z.to_nat (Z.min r (Z.of_nat len)).

(** [a.slice(start, end)]. *)
Definition slice {A} (a : list A) (start end_ : Qc) : list A :=
  let k := relIndex (length a) start in
  let final := relIndex (length a) end_ in
  take (final - k)%nat (drop k a).

(** [a.findIndex(p)]; [None] stands for [-1]. *)
Definition findIndex {A} (p : A -> bool) (a : list A) : option nat :=
  fst <$> list_find (fun x => p x = true) a.

(** [a.splice(i, 1)]: the array without its element at [i]. *)
Definition splice1 {A} (i : nat) (a : list A) : list A := delete i a.

(** [a.sort(comparefn)].  The language fixes the result for a consistent
    comparator: the stable ordering of the elements.  Insertion from the
    right computes it: an element goes in front of the first element of
    the sorted tail that the comparator does not place before it. *)
Fixpoint sort_insert {A} (cmp : A -> A -> Z) (x : A) (l : list A) : list A :=
  match l with
  | [] => [x]
  | y :: l' => if cmp y x <? 0 then y :: sort_insert cmp x l' else x :: l
  end.

Fixpoint sort {A} (cmp : A -> A -> Z) (l : list A) : list A :=
  match l with
  | [] => []
  | x :: l' => sort_insert cmp x (sort cmp l')
  end.

(** The operands of [<] and [>] in the service: two strings or two
    numbers.  Strings compare by code units, numbers by value. *)
Inductive Value :=
| VStr (s : string)
| VNum (x : Qc).

Definition lt (a b : Value) : bool :=
  match a, b with
  | VStr s, VStr t => String.ltb s t
  | VNum x, VNum y => bool_decide (x < y)%Qc
  | _, _ => false
  end.


(** Truthiness of an optional string: missing and empty are falsy. *)
Definition truthy (s : option string) : bool :=
  match s with
  | Some (String _ _) => true
  | _ => false
  end.

End JS.

(** ** Data model ([shared/orders.ts]) *)

Inductive OrderStatus := pending | processing | completed | cancelled.

#[global] Instance OrderStatus_eq_dec : EqDecision OrderStatus.
Proof. solve_decision. Defined.

(** The string a status value is at run time. *)
Definition status_str (s : OrderStatus) : string :=
  match s with
  | pending => "pending"
  | processing => "processing"
  | completed => "completed"
  | cancelled => "cancelled"
  end.

Record Order := mkOrder {
  orderId : string;
  customerName : string;
  customerEmail : option string;
  orderAmount : Qc;
  orderDate : string;
  description : option string;
  status : OrderStatus;
  invoiceFileUrl : option string;
  invoiceFileName : option string;
  paymentMethod : option string;
  shippingAddress : option string;
  notes : list string;
  createdAt : string;
  updatedAt : string
}.

Record CreateOrderRequest := mkCreate {
  c_customerName : string;
  c_customerEmail : option string;
  c_orderAmount : Qc;
  c_description : option string;
  c_paymentMethod : option string;
  c_shippingAddress : option string
}.

(** Every key of an update payload is optional. *)
Record UpdateOrderRequest := mkUpdate {
  u_customerName : option string;
  u_customerEmail : option string;
  u_orderAmount : option Qc;
  u_description : option string;
  u_status : option OrderStatus;
  u_paymentMethod : option string;
  u_shippingAddress : option string;
  u_notes : option (list string)
}.

Inductive SortBy :=
  by_orderId | by_customerName | by_orderAmount | by_orderDate | by_status.

Inductive SortOrder := asc | desc.

Record OrderQuery := mkQuery {
  page : Qc;
  limit : Qc;
  q_status : option OrderStatus;
  search : option string;
  sortBy : SortBy;
  sortOrder : SortOrder;
  dateFrom : option string;
  dateTo : option string
}.

Inductive NotificationType :=
  order_created | order_updated | order_completed | order_cancelled.

Record Notification := mkNotification {
  n_id : string;
  n_type : NotificationType;
  n_title : string;
  n_message : string;
  n_orderId : string;
  n_timestamp : string;
  n_read : bool
}.

(** The argument of [createNotification]: a notification without [id],
    [timestamp] and [read]. *)
Record NotificationData := mkData {
  d_type : NotificationType;
  d_title : string;
  d_message : string;
  d_orderId : string
}.

Record StatusBreakdown := mkBreakdown {
  b_pending : nat;
  b_processing : nat;
  b_completed : nat;
  b_cancelled : nat
}.

(** The scalar part of [OrderAnalytics]; the two grouped views
    ([revenueByMonth], [topCustomers]) are not part of this development. *)
Record OrderAnalytics := mkAnalytics {
  totalOrders : nat;
  totalRevenue : Qc;
  averageOrderValue : Qc;
  completionRate : Qc;
  statusBreakdown : StatusBreakdown
}.

(** The uploaded file as [createOrder] reads it. *)
Record MulterFile := mkFile {
  filename : string;
  originalname : string
}.

(** What one mutating call reads from the host: the clock in the method
    body, and the identifier and the clock in [createNotification]. *)
Record Host := mkHost {
  now : string;
  uuid : string;
  stamp : string
}.

(** The two private fields of [OrderService]. *)
Record OrderService := mkService {
  orders : list Order;
  notifications : list Notification
}.

(** The result of [getOrders]. *)
Record OrderPage := mkPage {
  page_orders : list Order;
  total : nat
}.

Definition num (n : Z) (d : positive) : Qc := Q2Qc (n # d).

(** ** The service ([server/services/orderService.ts]) *)

Definition sampleOrders : list Order :=
  [ {| orderId := "ORD-001";
       customerName := "John Smith";
       customerEmail := Some "john.smith@email.com";
       orderAmount := num 129999 100;
       orderDate := "2024-01-15T10:30:00Z";
       description := Some "High-performance laptop with extended warranty";
       status := completed;
       invoiceFileUrl := Some "/uploads/invoices/invoice-001.pdf";
       invoiceFileName := Some "invoice-001.pdf";
       paymentMethod := Some "Credit Card (**** 4242)";
       shippingAddress := Some "123 Main St, Springfield, IL 62701, USA";
       notes := [ "Order received and confirmed";
                  "Payment processed successfully";
                  "Items prepared for shipping";
                  "Order shipped via FedEx Express";
                  "Delivered successfully" ];
       createdAt := "2024-01-15T10:30:00Z";
       updatedAt := "2024-01-18T16:45:00Z" |};
    {| orderId := "ORD-002";
       customerName := "Sarah Johnson";
       customerEmail := Some "sarah.j@email.com";
       orderAmount := num 59950 100;
       orderDate := "2024-01-14T14:20:00Z";
       description := Some "Professional camera kit";
       status := processing;
       invoiceFileUrl := Some "/uploads/invoices/invoice-002.pdf";
       invoiceFileName := Some "invoice-002.pdf";
       paymentMethod := Some "PayPal";
       shippingAddress := Some "456 Oak Ave, Boston, MA 02101, USA";
       notes := [ "Order received and confirmed";
                  "Payment processed successfully";
                  "Items being prepared for shipping" ];
       createdAt := "2024-01-14T14:20:00Z";
       updatedAt := "2024-01-15T09:15:00Z" |};
    {| orderId := "ORD-003";
       customerName := "Mike Davis";
       customerEmail := Some "mike.davis@email.com";
       orderAmount := num 215000 100;
       orderDate := "2024-01-13T09:15:00Z";
       description := Some "Premium gaming setup with accessories";
       status := pending;
       invoiceFileUrl := Some "/uploads/invoices/invoice-003.pdf";
       invoiceFileName := Some "invoice-003.pdf";
       paymentMethod := Some "Bank Transfer";
       shippingAddress := Some "789 Pine Rd, Seattle, WA 98101, USA";
       notes := [ "Order received and awaiting payment confirmation" ];
       createdAt := "2024-01-13T09:15:00Z";
       updatedAt := "2024-01-13T09:15:00Z" |};
    {| orderId := "ORD-004";
       customerName := "Emily Wilson";
       customerEmail := Some "emily.w@email.com";
       orderAmount := num 79999 100;
       orderDate := "2024-01-12T16:45:00Z";
       description := Some "Smart home automation bundle";
       status := completed;
       invoiceFileUrl := Some "/uploads/invoices/invoice-004.pdf";
       invoiceFileName := Some "invoice-004.pdf";
       paymentMethod := Some "Credit Card (**** 1234)";
       shippingAddress := Some "321 Cedar St, Denver, CO 80201, USA";
       notes := [ "Order received and confirmed";
                  "Payment processed successfully";
                  "Items shipped and delivered" ];
       createdAt := "2024-01-12T16:45:00Z";
       updatedAt := "2024-01-14T10:20:00Z" |};
    {| orderId := "ORD-005";
       customerName := "David Brown";
       customerEmail := Some "david.brown@email.com";
       orderAmount := num 159900 100;
       orderDate := "2024-01-11T11:30:00Z";
       description := Some "Professional audio equipment";
       status := cancelled;
       invoiceFileUrl := Some "/uploads/invoices/invoice-005.pdf";
       invoiceFileName := Some "invoice-005.pdf";
       paymentMethod := Some "Credit Card (**** 5678)";
       shippingAddress := Some "654 Birch Ave, Austin, TX 73301, USA";
       notes := [ "Order received";
                  "Customer requested cancellation";
                  "Refund processed" ];
       createdAt := "2024-01-11T11:30:00Z";
       updatedAt := "2024-01-12T14:15:00Z" |} ].

(** The service as its constructor leaves it. *)
Definition initialService : OrderService :=
  {| orders := sampleOrders; notifications := [] |}.

(** [createNotification]: the new notification goes to the front and the
    array is cut back to its first 100 entries. *)
Definition createNotification (h : Host) (notificationData : NotificationData)
    (s : OrderService) : OrderService :=
  let notification :=
    {| n_id := uuid h;
       n_timestamp := stamp h;
       n_read := false;
       n_type := d_type notificationData;
       n_title := d_title notificationData;
       n_message := d_message notificationData;
       n_orderId := d_orderId notificationData |} in
  let unshifted := notification :: notifications s in
  {| orders := orders s;
     notifications :=
       if (100 <? length unshifted)%nat
       then JS.slice unshifted (Qc_of_Z 0) (Qc_of_Z 100)
       else unshifted |}.

Definition seedNote : string := "Order received and awaiting confirmation".

Definition createOrder (h : Host) (orderData : CreateOrderRequest)
    (invoiceFile : option MulterFile) (s : OrderService) : Order * OrderService :=
  let orderId :=
    "ORD-" +:+ JS.padStart 3 "0" (JS.String_of_nat (length (orders s) + 1)) in
  let now := now h in
  let newOrder :=
    {| orderId := orderId;
       customerName := c_customerName orderData;
       customerEmail := c_customerEmail orderData;
       orderAmount := c_orderAmount orderData;
       orderDate := now;
       description := c_description orderData;
       status := pending;
       invoiceFileUrl :=
         match invoiceFile with
         | Some f => Some ("/uploads/invoices/" +:+ filename f)
         | None => None
         end;
       invoiceFileName := originalname <$> invoiceFile;
       paymentMethod := c_paymentMethod orderData;
       shippingAddress := c_shippingAddress orderData;
       notes := [seedNote];
       createdAt := now;
       updatedAt := now |} in
  let unshifted :=
    {| orders := newOrder :: orders s; notifications := notifications s |} in
  (newOrder,
   createNotification h
     {| d_type := order_created;
        d_title := "New Order Created";
        d_message :=
          "Order " +:+ orderId +:+ " has been created for "
            +:+ c_customerName orderData;
        d_orderId := orderId |}
     unshifted).

(** A key of the payload replaces the stored value when it is present. *)
Definition spread {A} (existing : A) (update : option A) : A :=
  default existing update.

Definition spread_opt {A} (existing update : option A) : option A :=
  match update with
  | Some v => Some v
  | None => existing
  end.

(** [{ ...existingOrder, ...updateData, updatedAt }]. *)
Definition merged (existingOrder : Order) (updateData : UpdateOrderRequest)
    (updatedAt : string) : Order :=
  {| orderId := orderId existingOrder;
     customerName := spread (customerName existingOrder) (u_customerName updateData);
     customerEmail := spread_opt (customerEmail existingOrder) (u_customerEmail updateData);
     orderAmount := spread (orderAmount existingOrder) (u_orderAmount updateData);
     orderDate := orderDate existingOrder;
     description := spread_opt (description existingOrder) (u_description updateData);
     status := spread (status existingOrder) (u_status updateData);
     invoiceFileUrl := invoiceFileUrl existingOrder;
     invoiceFileName := invoiceFileName existingOrder;
     paymentMethod := spread_opt (paymentMethod existingOrder) (u_paymentMethod updateData);
     shippingAddress := spread_opt (shippingAddress existingOrder) (u_shippingAddress updateData);
     notes := spread (notes existingOrder) (u_notes updateData);
     createdAt := createdAt existingOrder;
     updatedAt := updatedAt |}.

Definition with_notes (o : Order) (ns : list string) : Order :=
  {| orderId := orderId o;
     customerName := customerName o;
     customerEmail := customerEmail o;
     orderAmount := orderAmount o;
     orderDate := orderDate o;
     description := description o;
     status := status o;
     invoiceFileUrl := invoiceFileUrl o;
     invoiceFileName := invoiceFileName o;
     paymentMethod := paymentMethod o;
     shippingAddress := shippingAddress o;
     notes := ns;
     createdAt := createdAt o;
     updatedAt := updatedAt o |}.

Definition statusNote (old new : OrderStatus) : string :=
  "Status changed from " +:+ status_str old +:+ " to " +:+ status_str new.

(** [updateData.status && updateData.status !== existingOrder.status] *)
Definition statusChanges (existingOrder : Order) (updateData : UpdateOrderRequest)
    : option OrderStatus :=
  match u_status updateData with
  | Some st => if decide (st = status existingOrder) then None else Some st
  | None => None
  end.

Definition has_id (oid : string) (order : Order) : Prop := orderId order = oid.

#[global] Instance has_id_dec oid order : Decision (has_id oid order).
Proof. unfold has_id. apply _. Defined.

Definition updateOrder (h : Host) (oid : string) (updateData : UpdateOrderRequest)
    (s : OrderService) : option Order * OrderService :=
  match list_find (has_id oid) (orders s) with
  | None => (None, s)
  | Some (orderIndex, existingOrder) =>
      let updatedOrder := merged existingOrder updateData (now h) in
      match statusChanges existingOrder updateData with
      | Some st =>
          let updatedOrder :=
            with_notes updatedOrder
              (notes existingOrder ++ [statusNote (status existingOrder) st]) in
          let notified :=
            createNotification h
              {| d_type := order_updated;
                 d_title := "Order Status Updated";
                 d_message :=
                   "Order " +:+ oid +:+ " status changed to " +:+ status_str st;
                 d_orderId := oid |}
              s in
          (Some updatedOrder,
           {| orders := <[orderIndex := updatedOrder]> (orders notified);
              notifications := notifications notified |})
      | None =>
          (Some updatedOrder,
           {| orders := <[orderIndex := updatedOrder]> (orders s);
              notifications := notifications s |})
      end
  end.

Definition deleteOrder (oid : string) (s : OrderService) : bool * OrderService :=
  match JS.findIndex (fun order => bool_decide (has_id oid order)) (orders s) with
  | None => (false, s)
  | Some orderIndex =>
      (true,
       {| orders := JS.splice1 orderIndex (orders s);
          notifications := notifications s |})
  end.

Definition bump (st : OrderStatus) (b : StatusBreakdown) : StatusBreakdown :=
  match st with
  | pending => mkBreakdown (S (b_pending b)) (b_processing b) (b_completed b) (b_cancelled b)
  | processing => mkBreakdown (b_pending b) (S (b_processing b)) (b_completed b) (b_cancelled b)
  | completed => mkBreakdown (b_pending b) (b_processing b) (S (b_completed b)) (b_cancelled b)
  | cancelled => mkBreakdown (b_pending b) (b_processing b) (b_completed b) (S (b_cancelled b))
  end.

Definition Qc_of_nat (n : nat) : Qc := Qc_of_Z (Z.of_nat n).

Definition getAnalytics (s : OrderService) : OrderAnalytics :=
  let totalOrders := length (orders s) in
  let completedOrders := filter (fun order => status order = completed) (orders s) in
  let totalRevenue :=
    foldl (fun sum order => (sum + orderAmount order)%Qc) (Qc_of_Z 0) completedOrders in
  let averageOrderValue :=
    if (0 <? totalOrders)%nat then (totalRevenue / Qc_of_nat totalOrders)%Qc
    else Qc_of_Z 0 in
  let completionRate :=
    if (0 <? totalOrders)%nat
    then (Qc_of_nat (length completedOrders) / Qc_of_nat totalOrders * Qc_of_Z 100)%Qc
    else Qc_of_Z 0 in
  let statusBreakdown :=
    foldl (fun b order => bump (status order) b) (mkBreakdown 0 0 0 0) (orders s) in
  {| totalOrders := totalOrders;
     totalRevenue := totalRevenue;
     averageOrderValue := averageOrderValue;
     completionRate := completionRate;
     statusBreakdown := statusBreakdown |}.

(** *** The query engine *)

Section Query.

(** [new Date(s).getTime()]: the host's reading of a date string, [None]
    for an invalid date. *)
Variable Date_time : string -> option Z.

(** [new Date(a) >= new Date(b)]; a comparison with an invalid date is
    false. *)
Definition date_ge (a b : string) : bool :=
  match Date_time a, Date_time b with
  | Some x, Some y => y <=? x
  | _, _ => false
  end.

Definition searchMatches (searchLower : string) (order : Order) : bool :=
  JS.includes (JS.toLowerCase (orderId order)) searchLower
  || JS.includes (JS.toLowerCase (customerName order)) searchLower
  || match customerEmail order with
     | Some email => JS.includes (JS.toLowerCase email) searchLower
     | None => false
     end.

Definition filterStatus (query : OrderQuery) (l : list Order) : list Order :=
  match q_status query with
  | Some st => filter (fun order => status order = st) l
  | None => l
  end.

Definition filterSearch (query : OrderQuery) (l : list Order) : list Order :=
  match search query with
  | Some term =>
      if JS.truthy (Some term)
      then filter (fun order => searchMatches (JS.toLowerCase term) order) l
      else l
  | None => l
  end.

Definition filterDateFrom (query : OrderQuery) (l : list Order) : list Order :=
  match dateFrom query with
  | Some d =>
      if JS.truthy (Some d)
      then filter (fun order => date_ge (orderDate order) d) l
      else l
  | None => l
  end.

Definition filterDateTo (query : OrderQuery) (l : list Order) : list Order :=
  match dateTo query with
  | Some d =>
      if JS.truthy (Some d)
      then filter (fun order => date_ge d (orderDate order)) l
      else l
  | None => l
  end.

(** [a[query.sortBy]] *)
Definition field (key : SortBy) (a : Order) : JS.Value :=
  match key with
  | by_orderId => JS.VStr (orderId a)
  | by_customerName => JS.VStr (customerName a)
  | by_orderAmount => JS.VNum (orderAmount a)
  | by_orderDate => JS.VStr (orderDate a)
  | by_status => JS.VStr (status_str (status a))
  end.

(** The comparator handed to [sort]. *)
Definition comparator (query : OrderQuery) (a b : Order) : Z :=
  let aValue := field (sortBy query) a in
  let bValue := field (sortBy query) b in
  let comparison := 0 in
  let comparison := if JS.lt aValue bValue then -1 else comparison in
  let comparison := if JS.lt bValue aValue then 1 else comparison in
  match sortOrder query with
  | asc => comparison
  | desc => - comparison
  end.

(** The array after the four filters. *)
Definition filteredOrders (query : OrderQuery) (s : OrderService) : list Order :=
  filterDateTo query
    (filterDateFrom query
       (filterSearch query
          (filterStatus query (orders s)))).

(** The array after sorting, before the page is cut out. *)
Definition sortedOrders (query : OrderQuery) (s : OrderService) : list Order :=
  JS.sort (comparator query) (filteredOrders query s).

Definition getOrders (query : OrderQuery) (s : OrderService) : OrderPage :=
  let sorted := sortedOrders query s in
  let total := length sorted in
  let startIndex := ((page query - Qc_of_Z 1) * limit query)%Qc in
  let paginatedOrders := JS.slice sorted startIndex (startIndex + limit query)%Qc in
  {| page_orders := paginatedOrders; total := total |}.

End Query.

(** ** A reading of ISO-8601 timestamps

    [new Date(s)] on the strings the schemas admit for dates: a UTC
    timestamp [YYYY-MM-DDTHH:mm:ss], an optional fraction of a second, and
    [Z].  The result is the time value in milliseconds since the epoch. *)

Module ISO.

Definition digit (c : ascii) : option Z :=
  let n := Z.of_N (N_of_ascii c) in
  if (48 <=? n) && (n <=? 57) then Some (n - 48) else None.

(** Exactly [k] decimal digits. *)
Fixpoint digits (k : nat) (acc : Z) (s : list ascii) : option (Z * list ascii) :=
  match k with
  | O => Some (acc, s)
  | S k' =>
      match s with
      | c :: s' => d ← digit c; digits k' (10 * acc + d) s'
      | [] => None
      end
  end.

Definition expect (c : ascii) (s : list ascii) : option (list ascii) :=
  match s with
  | c' :: s' => if decide (c = c') then Some s' else None
  | [] => None
  end.

(** The fraction after the dot: at least one digit; the first three count
    as milliseconds, further digits are dropped. *)
Fixpoint fraction (place : Z) (acc : Z) (s : list ascii) : Z * list ascii :=
  match s with
  | c :: s' =>
      match digit c with
      | Some d => fraction (place / 10) (acc + d * place) s'
      | None => (acc, s)
      end
  | [] => (acc, s)
  end.

Definition millis (s : list ascii) : option (Z * list ascii) :=
  match s with
  | "."%char :: c :: s' =>
      d ← digit c; Some (fraction 10 (d * 100) s')
  | _ => Some (0, s)
  end.

(** Days since the epoch of a date of the proleptic Gregorian calendar. *)
Definition days_from_civil (y m d : Z) : Z :=
  let y' := if m <=? 2 then y - 1 else y in
  let era := y' / 400 in
  let yoe := y' - era * 400 in
  let doy := (153 * (if 2 <? m then m - 3 else m + 9) + 2) / 5 + d - 1 in
  let doe := yoe * 365 + yoe / 4 - yoe / 100 + doy in
  era * 146097 + doe - 719468.

Definition in_range (lo x hi : Z) : option unit :=
  if (lo <=? x) && (x <=? hi) then Some tt else None.

Definition parse (str : string) : option Z :=
  let s := list_ascii_of_string str in
  '(y, s) ← digits 4 0 s;
  s ← expect "-" s;
  '(m, s) ← digits 2 0 s;
  s ← expect "-" s;
  '(d, s) ← digits 2 0 s;
  s ← expect "T" s;
  '(hh, s) ← digits 2 0 s;
  s ← expect ":" s;
  '(mm, s) ← digits 2 0 s;
  s ← expect ":" s;
  '(ss, s) ← digits 2 0 s;
  '(ms, s) ← millis s;
  s ← expect "Z" s;
  _ ← in_range 1 m 12;
  _ ← in_range 1 d 31;
  _ ← in_range 0 hh 23;
  _ ← in_range 0 mm 59;
  _ ← in_range 0 ss 59;
  match s with
  | [] =>
      Some ((((days_from_civil y m d * 24 + hh) * 60 + mm) * 60 + ss) * 1000 + ms)
  | _ :: _ => None
  end.

(** *** Timestamps as text

    The fields of a UTC timestamp and the two shapes its text has in the
    store: the one [toISOString] writes, with milliseconds, and the one of
    the sample data, without. *)

Record Timestamp := mkTimestamp {
  year : Z;
  month : Z;
  day : Z;
  hour : Z;
  minute : Z;
  second : Z;
  millisecond : Z
}.

Definition leap (y : Z) : bool :=
  (y mod 4 =? 0) && (negb (y mod 100 =? 0) || (y mod 400 =? 0)).

Definition days_in_month (y m : Z) : Z :=
  if m =? 2 then (if leap y then 29 else 28)
  else if (m =? 4) || (m =? 6) || (m =? 9) || (m =? 11) then 30 else 31.

(** A date of the calendar and a time of the day, in a year of four
    digits. *)
Definition valid (t : Timestamp) : Prop :=
  0 <= year t <= 9999
  /\ 1 <= month t <= 12
  /\ 1 <= day t <= days_in_month (year t) (month t)
  /\ 0 <= hour t <= 23
  /\ 0 <= minute t <= 59
  /\ 0 <= second t <= 59
  /\ 0 <= millisecond t <= 999.

Definition digit_char (d : Z) : ascii := ascii_of_N (Z.to_N (48 + d)).

Definition d2 (n : Z) : list ascii := [digit_char (n / 10); digit_char (n mod 10)].
Definition d3 (n : Z) : list ascii := digit_char (n / 100) :: d2 (n mod 100).
Definition d4 (n : Z) : list ascii := digit_char (n / 1000) :: d3 (n mod 1000).

(** The text of a timestamp, with the milliseconds or without. *)
Definition render (with_millis : bool) (t : Timestamp) : string :=
  string_of_list_ascii
    (d4 (year t) ++ "-"%char :: d2 (month t) ++ "-"%char :: d2 (day t)
       ++ "T"%char :: d2 (hour t) ++ ":"%char :: d2 (minute t)
       ++ ":"%char :: d2 (second t)
       ++ (if with_millis then "."%char :: d3 (millisecond t) else [])
       ++ ["Z"%char]).

(** The time value of a timestamp. *)
Definition time_of (t : Timestamp) : Z :=
  (((days_from_civil (year t) (month t) (day t) * 24 + hour t) * 60
      + minute t) * 60 + second t) * 1000 + millisecond t.

(** [str] is the text of a valid timestamp in the given shape. *)
Definition shaped (with_millis : bool) (str : string) : Prop :=
  exists t, valid t
    /\ (with_millis = false -> millisecond t = 0)
    /\ str = render with_millis t.

(** Two comparisons in sequence: the second decides when the first finds
    no difference. *)
Definition lexc (c1 c2 : comparison) : comparison :=
  match c1 with
  | Eq => c2
  | _ => c1
  end.

End ISO.

(** ** Histories of the store *)

Inductive Op :=
| OpCreate (h : Host) (orderData : CreateOrderRequest) (invoiceFile : option MulterFile)
| OpUpdate (h : Host) (oid : string) (updateData : UpdateOrderRequest)
| OpDelete (oid : string).

Definition step (s : OrderService) (op : Op) : OrderService :=
  match op with
  | OpCreate h orderData invoiceFile => snd (createOrder h orderData invoiceFile s)
  | OpUpdate h oid updateData => snd (updateOrder h oid updateData s)
  | OpDelete oid => snd (deleteOrder oid s)
  end.

Definition run (ops : list Op) (s : OrderService) : OrderService :=
  foldl step s ops.

(** The states the service can be in: those a sequence of calls produces
    from the state the constructor builds. *)
Definition reachable (s : OrderService) : Prop :=
  exists ops, s = run ops initialService.

(** ** Vocabulary of the statements *)

(** [oid] names at most one order of the store. *)
Definition unique_ids (s : OrderService) : Prop :=
  NoDup (orderId <$> orders s).

#[global] Instance unique_ids_dec s : Decision (unique_ids s).
Proof. unfold unique_ids. apply _. Defined.

(** What [createNotification] leaves behind: the new entry in front of the
    old ones, at most 100 in all. *)
Definition emitted (n : Notification) (s s' : OrderService) : Prop :=
  notifications s' = take 100 (n :: notifications s).

(** The payload does not ask for a status other than the one [o] has. *)
Definition status_kept (o : Order) (updateData : UpdateOrderRequest) : Prop :=
  u_status updateData = None \/ u_status updateData = Some (status o).

(** Across an update every stored order stays in its place, its notes
    extended at the end at most, and unchanged when the payload keeps its
    status. *)
Definition update_keeps_notes (h : Host) (oid : string)
    (updateData : UpdateOrderRequest) (s : OrderService) : Prop :=
  forall i o, orders s !! i = Some o ->
    exists o', orders (snd (updateOrder h oid updateData s)) !! i = Some o'
      /\ notes o `prefix_of` notes o'
      /\ (status_kept o updateData -> notes o' = notes o).

Definition without_notes (updateData : UpdateOrderRequest) : UpdateOrderRequest :=
  {| u_customerName := u_customerName updateData;
     u_customerEmail := u_customerEmail updateData;
     u_orderAmount := u_orderAmount updateData;
     u_description := u_description updateData;
     u_status := u_status updateData;
     u_paymentMethod := u_paymentMethod updateData;
     u_shippingAddress := u_shippingAddress updateData;
     u_notes := None |}.

(** [t] occurs in [s]. *)
Definition substring (t s : string) : Prop :=
  exists pre post, s = pre +:+ t +:+ post.

(** The search criterion in words: the lowered term occurs in the lowered
    identifier, name, or e-mail address when there is one. *)
Definition search_hit (term : string) (o : Order) : Prop :=
  substring (JS.toLowerCase term) (JS.toLowerCase (orderId o))
  \/ substring (JS.toLowerCase term) (JS.toLowerCase (customerName o))
  \/ exists email, customerEmail o = Some email
       /\ substring (JS.toLowerCase term) (JS.toLowerCase email).




Definition with_page (query : OrderQuery) (p : Qc) : OrderQuery :=
  {| page := p;
     limit := limit query;
     q_status := q_status query;
     search := search query;
     sortBy := sortBy query;
     sortOrder := sortOrder query;
     dateFrom := dateFrom query;
     dateTo := dateTo query |}.

(** [Math.ceil(total / limit)], the number of pages the route reports. *)
Definition totalPages (total : nat) (limit : Qc) : nat :=
  Z.to_nat (Qceiling (Qc_of_nat total / limit)%Qc).

(** The native order of the values a sort key takes: code-unit order on
    strings, numeric order on numbers. *)
Definition value_le (a b : JS.Value) : Prop :=
  match a, b with
  | JS.VStr s, JS.VStr t => String.leb s t = true
  | JS.VNum x, JS.VNum y => (x <= y)%Qc
  | _, _ => False
  end.

Definition same_key (key : SortBy) (a b : Order) : Prop :=
  field key a = field key b.

#[global] Instance Value_eq_dec : EqDecision JS.Value.
Proof. solve_decision. Defined.

#[global] Instance same_key_dec key a b : Decision (same_key key a b).
Proof. unfold same_key. apply _. Defined.

(** [l] in the order the query asks for, under [le] on the sort key. *)
Definition ordered_by (le : Order -> Order -> Prop) (dir : SortOrder)
    (l : list Order) : Prop :=
  forall i j a b, (i < j)%nat -> l !! i = Some a -> l !! j = Some b ->
    match dir with
    | asc => le a b
    | desc => le b a
    end.

Definition key_le (key : SortBy) (a b : Order) : Prop :=
  value_le (field key a) (field key b).

(** Order in time of two timestamps, read as dates. *)
Definition chrono_le (a b : Order) : Prop :=
  exists x y, ISO.parse (orderDate a) = Some x /\ ISO.parse (orderDate b) = Some y /\ x <= y.

(** [d] is the text of a valid timestamp, written with the milliseconds
    or without. *)
Definition stamped (d : string) : Prop :=
  exists with_millis, ISO.shaped with_millis d.

(** Two date texts clash: one is written with the milliseconds and the
    other without (the two shapes differ in length), and they name
    different instants of one second. *)
Definition clash (d d' : string) : Prop :=
  String.length d <> String.length d'
  /\ match ISO.parse d, ISO.parse d' with
     | Some x, Some y => x / 1000 = y / 1000 /\ x <> y
     | _, _ => False
     end.

#[global] Instance clash_dec d d' : Decision (clash d d').
Proof. unfold clash. destruct (ISO.parse d), (ISO.parse d'); apply _. Defined.

(** The order the claim on sorting describes: in time for [orderDate],
    native on the value otherwise. *)
Definition claimed_le (key : SortBy) (a b : Order) : Prop :=
  match key with
  | by_orderDate => chrono_le a b
  | _ => key_le key a b
  end.

(** The conditions of a query on one order, and all of them in one test. *)
Definition passes_status (query : OrderQuery) (o : Order) : bool :=
  match q_status query with
  | Some st => bool_decide (status o = st)
  | None => true
  end.

Definition passes_search (query : OrderQuery) (o : Order) : bool :=
  match search query with
  | Some (String _ _ as term) => searchMatches (JS.toLowerCase term) o
  | _ => true
  end.

Definition passes_dateFrom (Date_time : string -> option Z) (query : OrderQuery)
    (o : Order) : bool :=
  match dateFrom query with
  | Some (String _ _ as d) => date_ge Date_time (orderDate o) d
  | _ => true
  end.

Definition passes_dateTo (Date_time : string -> option Z) (query : OrderQuery)
    (o : Order) : bool :=
  match dateTo query with
  | Some (String _ _ as d) => date_ge Date_time d (orderDate o)
  | _ => true
  end.

Definition passes (Date_time : string -> option Z) (query : OrderQuery) (o : Order) : bool :=
  passes_status query o
  && passes_search query o
  && passes_dateFrom Date_time query o
  && passes_dateTo Date_time query o.

(** The notification [createNotification] builds from its argument. *)
Definition notification_of (h : Host) (d : NotificationData) : Notification :=
  {| n_id := uuid h;
     n_type := d_type d;
     n_title := d_title d;
     n_message := d_message d;
     n_orderId := d_orderId d;
     n_timestamp := stamp h;
     n_read := false |}.

(** The operation is an update that finds its order, carries notes, and
    asks for no change of status. *)
Definition replaces_notes (op : Op) (s : OrderService) : bool :=
  match op with
  | OpUpdate _ oid updateData =>
      match list_find (has_id oid) (orders s), u_notes updateData with
      | Some (_, o), Some _ =>
          match statusChanges o updateData with
          | None => true
          | Some _ => false
          end
      | _, _ => false
      end
  | _ => false
  end.

(** No operation takes notes away: a created order goes in front of the
    others, a deletion leaves the others as they were, an update keeps
    every order in place with its notes extended at most. *)
Definition op_keeps_notes (op : Op) (s : OrderService) : Prop :=
  match op with
  | OpCreate h orderData invoiceFile =>
      orders (step s op) = fst (createOrder h orderData invoiceFile s) :: orders s
  | OpUpdate h oid updateData => update_keeps_notes h oid updateData s
  | OpDelete oid => orders (step s op) `sublist_of` orders s
  end.

(** Under the comparator [cmp], [a] may stand in front of [b]: the
    comparator does not put [b] first. *)
Definition may_precede {A} (cmp : A -> A -> Z) (a b : A) : Prop :=
  (cmp b a <? 0) = false.

(** The index a non-negative number stands for. *)
Definition floor_index (x : Qc) : nat := Z.to_nat (Qfloor x).

(** [(page - 1) * limit] *)
Definition startIndex (query : OrderQuery) : Qc :=
  ((page query - Qc_of_Z 1) * limit query)%Qc.

(** The pages 1, ..., [n] of a query, one after the other. *)
Definition pages_upto (Date_time : string -> option Z) (query : OrderQuery)
    (s : OrderService) (n : nat) : list Order :=
  concat ((fun p => page_orders (getOrders Date_time (with_page query (Qc_of_nat p)) s))
            <$> seq 1 n).

(** The state after one order is created, from the initial state, at the
    clock reading 2024-01-15T10:30:00.500Z. *)
Definition oneCreated : OrderService :=
  snd (createOrder
         (mkHost "2024-01-15T10:30:00.500Z" "id-1" "2024-01-15T10:30:00.501Z")
         (mkCreate "Ada Park" None (num 4200 100) None None None)
         None initialService).

(** ** Proof steps for calendar arithmetic *)

(** Case on every comparison that a goal or a hypothesis tests. *)
Ltac split_tests :=
  repeat match goal with
  | |- context [?a <=? ?b] => destruct (Z.leb_spec a b)
  | |- context [?a <? ?b] => destruct (Z.ltb_spec a b)
  | |- context [?a =? ?b] => destruct (Z.eqb_spec a b)
  | H : context [?a <=? ?b] |- _ => destruct (Z.leb_spec a b)
  | H : context [?a <? ?b] |- _ => destruct (Z.ltb_spec a b)
  | H : context [?a =? ?b] |- _ => destruct (Z.eqb_spec a b)
  end.

(** Unfold the calendar, split the tests, and leave the divisions to
    linear arithmetic. *)
Ltac calendar :=
  unfold ISO.days_from_civil, ISO.days_in_month, ISO.leap in *; cbv zeta;
  split_tests; cbn [andb orb negb] in *; try lia;
  Z.div_mod_to_equations; lia.

(** ** The rest of the service *)

(** [this.orders.find(order => order.orderId === orderId) || null] *)
Definition getOrderById (oid : string) (s : OrderService) : option Order :=
  snd <$> list_find (has_id oid) (orders s).

(** [getNotifications(limit = 10)]: a missing limit is 10. *)
Definition getNotifications (limit : option Qc) (s : OrderService) : list Notification :=
  JS.slice (notifications s) (Qc_of_Z 0) (default (Qc_of_Z 10) limit).

Definition has_nid (nid : string) (n : Notification) : Prop := n_id n = nid.

#[global] Instance has_nid_dec nid n : Decision (has_nid nid n).
Proof. unfold has_nid. apply _. Defined.

(** [notification.read = true] *)
Definition set_read (n : Notification) : Notification :=
  {| n_id := n_id n;
     n_type := n_type n;
     n_title := n_title n;
     n_message := n_message n;
     n_orderId := n_orderId n;
     n_timestamp := n_timestamp n;
     n_read := true |}.

(** The notification found is an element of the array, so the assignment
    to its [read] flag changes the array in that place. *)
Definition markNotificationAsRead (notificationId : string) (s : OrderService)
    : bool * OrderService :=
  match list_find (has_nid notificationId) (notifications s) with
  | Some (i, notification) =>
      (true,
       {| orders := orders s;
          notifications := <[i := set_read notification]> (notifications s) |})
  | None => (false, s)
  end.

(** The loop of [bulkUpdateOrders]; the [k]-th call of [updateOrder] reads
    the host at [h k]. *)
Fixpoint bulkUpdateLoop (h : nat -> Host) (k : nat) (orderIds : list string)
    (updateData : UpdateOrderRequest) (updatedOrders : list Order)
    (s : OrderService) : list Order * OrderService :=
  match orderIds with
  | [] => (updatedOrders, s)
  | orderId :: rest =>
      let r := updateOrder (h k) orderId updateData s in
      bulkUpdateLoop h (S k) rest updateData
        match fst r with
        | Some updated => updatedOrders ++ [updated]
        | None => updatedOrders
        end
        (snd r)
  end.

Definition bulkUpdateOrders (h : nat -> Host) (orderIds : list string)
    (updateData : UpdateOrderRequest) (s : OrderService)
    : list Order * OrderService :=
  bulkUpdateLoop h 0 orderIds updateData [] s.

(** [Partial<OrderQuery>]: every key may be missing. *)
Record PartialQuery := mkPartial {
  p_page : option Qc;
  p_limit : option Qc;
  p_status : option OrderStatus;
  p_search : option string;
  p_sortBy : option SortBy;
  p_sortOrder : option SortOrder;
  p_dateFrom : option string;
  p_dateTo : option string
}.

(** [{ page: 1, limit: 1000, sortBy: "orderDate", sortOrder: "desc",
    ...filters }] *)
Definition exportQuery (filters : option PartialQuery) : OrderQuery :=
  {| page := spread (Qc_of_Z 1) (filters ≫= p_page);
     limit := spread (Qc_of_Z 1000) (filters ≫= p_limit);
     q_status := filters ≫= p_status;
     search := filters ≫= p_search;
     sortBy := spread by_orderDate (filters ≫= p_sortBy);
     sortOrder := spread desc (filters ≫= p_sortOrder);
     dateFrom := filters ≫= p_dateFrom;
     dateTo := filters ≫= p_dateTo |}.

Definition getOrdersForExport (Date_time : string -> option Z)
    (filters : option PartialQuery) (s : OrderService) : list Order :=
  page_orders (getOrders Date_time (exportQuery filters) s).

(** *** Grouped totals

    A [Map] with string keys: the entries in the order their keys were
    first set. *)

Record Totals := mkTotals {
  t_revenue : Qc;
  t_orders : nat
}.

Fixpoint map_get {V} (key : string) (m : list (string * V)) : option V :=
  match m with
  | [] => None
  | (k, v) :: m' => if decide (k = key) then Some v else map_get key m'
  end.

(** [m.set(key, v)]: a key already there keeps its place. *)
Fixpoint map_set {V} (key : string) (v : V) (m : list (string * V)) : list (string * V) :=
  match m with
  | [] => [(key, v)]
  | (k, v') :: m' =>
      if decide (k = key) then (k, v) :: m' else (k, v') :: map_set key v m'
  end.

(** The body both groupings run for an order, under the key the grouping
    takes from it. *)
Definition tally (key : string) (order : Order) (m : list (string * Totals))
    : list (string * Totals) :=
  let existing := default {| t_revenue := Qc_of_Z 0; t_orders := 0 |} (map_get key m) in
  map_set key
    {| t_revenue :=
         (t_revenue existing
          + if decide (status order = completed) then orderAmount order else Qc_of_Z 0)%Qc;
       t_orders := t_orders existing + 1 |}
    m.

Record TopCustomer := mkTop {
  tc_customerName : string;
  tc_totalOrders : nat;
  tc_totalRevenue : Qc
}.

(** The sign of a number, which is all [sort] reads of what a comparator
    returns. *)
Definition sign (x : Qc) : Z :=
  if decide (x < 0)%Qc then -1 else if decide (0 < x)%Qc then 1 else 0.

Definition customerData (s : OrderService) : list (string * Totals) :=
  foldl (fun m order => tally (customerName order) order m) [] (orders s).

Definition calculateTopCustomers (s : OrderService) : list TopCustomer :=
  JS.slice
    (JS.sort (fun a b => sign (tc_totalRevenue b - tc_totalRevenue a)%Qc)
       ((fun e => {| tc_customerName := fst e;
                     tc_totalOrders := t_orders (snd e);
                     tc_totalRevenue := t_revenue (snd e) |}) <$> customerData s))
    (Qc_of_Z 0) (Qc_of_Z 10).

Record MonthRevenue := mkMonth {
  m_month : string;
  m_revenue : Qc;
  m_orders : nat
}.

Section Months.

(** [new Date(s).toISOString().slice(0, 7)]: the month of a date string as
    the host writes it, [None] where [toISOString] throws (an invalid
    date). *)
Variable monthOf : string -> option string.

(** [a.localeCompare(b)] of the host. *)
Variable localeCompare : string -> string -> Z.

(** The map after the loop; [None] when the loop throws. *)
Definition monthlyData (s : OrderService) : option (list (string * Totals)) :=
  foldl (fun acc order =>
           m ← acc;
           month ← monthOf (orderDate order);
           Some (tally month order m))
        (Some []) (orders s).

Definition calculateRevenueByMonth (s : OrderService) : option (list MonthRevenue) :=
  m ← monthlyData s;
  Some (JS.sort (fun a b => localeCompare (m_month a) (m_month b))
          ((fun e => {| m_month := fst e;
                        m_revenue := t_revenue (snd e);
                        m_orders := t_orders (snd e) |}) <$> m)).

End Months.

(** *** Every call that changes the service *)

Inductive Call :=
| CallCreate (h : Host) (orderData : CreateOrderRequest) (invoiceFile : option MulterFile)
| CallUpdate (h : Host) (oid : string) (updateData : UpdateOrderRequest)
| CallDelete (oid : string)
| CallBulkUpdate (h : nat -> Host) (orderIds : list string) (updateData : UpdateOrderRequest)
| CallMarkRead (notificationId : string).

Definition call (s : OrderService) (c : Call) : OrderService :=
  match c with
  | CallCreate h orderData invoiceFile => snd (createOrder h orderData invoiceFile s)
  | CallUpdate h oid updateData => snd (updateOrder h oid updateData s)
  | CallDelete oid => snd (deleteOrder oid s)
  | CallBulkUpdate h orderIds updateData => snd (bulkUpdateOrders h orderIds updateData s)
  | CallMarkRead notificationId => snd (markNotificationAsRead notificationId s)
  end.

Definition calls (cs : list Call) (s : OrderService) : OrderService :=
  foldl call s cs.

(** The notifications not yet read. *)
Definition unread (l : list Notification) : list Notification :=
  filter (fun n => n_read n = false) l.

(** The handler of [GET /api/notifications] ([routes/notifications.ts]):
    [parseInt(req.query.limit) || 10], from what [parseInt] gives, an
    integer or [None] for [NaN]. *)
Definition notificationsLimit (parsed : option Z) : Z :=
  match parsed with
  | Some n => if decide (n = 0) then 10 else n
  | None => 10
  end.

Definition getNotificationsHandler (parsed : option Z) (s : OrderService)
    : list Notification :=
  getNotifications (Some (Qc_of_Z (notificationsLimit parsed))) s.

(** [l'] is [l] with unread entries put in front of it and the whole cut
    to its first 100. *)
Definition ring_extends (l l' : list Notification) : Prop :=
  exists news, l' = take 100 (news ++ l) /\ Forall (fun n => n_read n = false) news.

Definition is_mark_read (c : Call) : bool :=
  match c with
  | CallMarkRead _ => true
  | _ => false
  end.


(** *** Vocabulary for the grouped totals *)

(** The map after the loop over [l] that files each order under [key]. *)
Definition grouped (key : Order -> string) (l : list Order) : list (string * Totals) :=
  foldl (fun m order => tally (key order) order m) [] l.




(** The key [calculateRevenueByMonth] files an order under, where the date
    of the order can be read. *)
Definition month_key (monthOf : string -> option string) (o : Order) : string :=
  default "" (monthOf (orderDate o)).

(** *** The analytics with the two groupings

    [getAnalytics] returns the five figures together with the revenue by
    month and the top customers; it throws where the grouping by month
    does. *)

Record AnalyticsReport := mkReport {
  figures : OrderAnalytics;
  revenueByMonth : list MonthRevenue;
  topCustomers : list TopCustomer
}.

Definition getAnalyticsReport (monthOf : string -> option string)
    (localeCompare : string -> string -> Z) (s : OrderService)
    : option AnalyticsReport :=
  revenueByMonth ← calculateRevenueByMonth monthOf localeCompare s;
  Some {| figures := getAnalytics s;
          revenueByMonth := revenueByMonth;
          topCustomers := calculateTopCustomers s |}.

(** *** Vocabulary for the queries *)

(** [d] is a date bound the query applies: a non-empty [dateFrom] or
    [dateTo]. *)
Definition date_bound (query : OrderQuery) (d : string) : Prop :=
  d <> "" /\ (dateFrom query = Some d \/ dateTo query = Some d).

(** A filter string as the tests [if (query.search)], [if (query.dateFrom)]
    and [if (query.dateTo)] see it: the empty string is no filter. *)
Definition effective (x : option string) : option string :=
  match x with
  | Some "" => None
  | _ => x
  end.

Definition effective_query (query : OrderQuery) : OrderQuery :=
  {| page := page query;
     limit := limit query;
     q_status := q_status query;
     search := effective (search query);
     sortBy := sortBy query;
     sortOrder := sortOrder query;
     dateFrom := effective (dateFrom query);
     dateTo := effective (dateTo query) |}.

(** *** Vocabulary for the identifiers *)

(** The identifier [createOrder] gives to the [n]-th order of the store. *)
Definition orderIdOf (n : nat) : string :=
  "ORD-" +:+ JS.padStart 3 "0" (JS.String_of_nat n).

(** The identifiers of the store are those of the orders 1 to [n], for the
    [n] orders it holds. *)
Definition numbered (s : OrderService) : Prop :=
  orderId <$> orders s ≡ₚ orderIdOf <$> seq 1 (length (orders s)).

Definition is_delete (c : Call) : bool :=
  match c with
  | CallDelete _ => true
  | _ => false
  end.
(** * Properties *)

(** ** Facts about the built-ins *)

Lemma ToInteger_of_Z (n : Z) : JS.ToInteger (Qc_of_Z n) = n.
Proof.
  unfold JS.ToInteger. destruct (Qclt_le_dec _ _); simpl.
  - apply Qceiling_Z.
  - apply Qfloor_Z.
Qed.

Lemma relIndex_of_nat (len n : nat) :
  JS.relIndex len (Qc_of_Z (Z.of_nat n)) = Nat.min n len.
Proof.
  unfold JS.relIndex. rewrite ToInteger_of_Z.
  destruct (Z.ltb_spec (Z.of_nat n) 0); lia.
Qed.

Lemma slice_prefix {A} (l : list A) (n : nat) :
  JS.slice l (Qc_of_Z 0) (Qc_of_Z (Z.of_nat n)) = take n l.
Proof.
  unfold JS.slice. rewrite (relIndex_of_nat _ 0), relIndex_of_nat. simpl.
  rewrite Nat.sub_0_r. destruct (Nat.le_ge_cases n (length l)).
  - by rewrite Nat.min_l.
  - rewrite Nat.min_r by done. by rewrite !take_ge.
Qed.

(** ** Notifications *)

Lemma createNotification_emits h d s :
  orders (createNotification h d s) = orders s
  /\ emitted (notification_of h d) s (createNotification h d s).
Proof.
  split; [done|]. unfold emitted, createNotification. cbn [notifications].
  fold (notification_of h d).
  destruct (Nat.ltb_spec 100 (length (notification_of h d :: notifications s))).
  - apply (slice_prefix _ 100).
  - by rewrite take_ge.
Qed.

(** ** Create *)

(** C4.  For every create request, the order that [createOrder] returns is
    the one it stores at the front of the store; it has status [pending],
    the seed note as its only note, and equal [createdAt] and [updatedAt];
    and one [order_created] notification carrying its [orderId] is put in
    front of the notifications. *)
Theorem createOrder_result h orderData invoiceFile s :
  let o := fst (createOrder h orderData invoiceFile s) in
  let s' := snd (createOrder h orderData invoiceFile s) in
  status o = pending
  /\ notes o = ["Order received and awaiting confirmation"]
  /\ createdAt o = updatedAt o
  /\ orders s' = o :: orders s
  /\ exists n, emitted n s s'
       /\ n_type n = order_created
       /\ n_orderId n = orderId o.
Proof.
  cbn zeta. unfold createOrder. cbn [fst snd].
  repeat split.
  eexists. split.
  - match goal with |- emitted _ _ (createNotification ?h ?d ?u) =>
      destruct (createNotification_emits h d u) as [_ E] end.
    unfold emitted in *. cbn [notifications] in E. exact E.
  - done.
Qed.

(** ** Update and delete *)

Lemma list_find_absent oid (l : list Order) :
  (forall o, o ∈ l -> orderId o <> oid) -> list_find (has_id oid) l = None.
Proof.
  intros H. apply list_find_None, Forall_forall. intros o Ho. by apply H.
Qed.

Lemma findIndex_has_id oid (l : list Order) :
  JS.findIndex (fun order => bool_decide (has_id oid order)) l
  = fst <$> list_find (has_id oid) l.
Proof.
  unfold JS.findIndex. f_equal.
  induction l as [|o l IH]; [done|]. cbn.
  rewrite IH.
  destruct (decide (bool_decide (has_id oid o) = true)) as [E|E],
    (decide (has_id oid o)) as [E'|E']; try done.
  - apply bool_decide_eq_true in E. done.
  - rewrite bool_decide_eq_true in E. done.
Qed.

(** C9.  When no stored order has the identifier, [updateOrder] returns no
    order and [deleteOrder] returns [false]; both leave the service, orders
    and notifications, as it was. *)
Theorem absent_id_no_change h oid updateData s :
  (forall o, o ∈ orders s -> orderId o <> oid) ->
  updateOrder h oid updateData s = (None, s)
  /\ deleteOrder oid s = (false, s)
  /\ length (orders (snd (deleteOrder oid s))) = length (orders s).
Proof.
  intros H. apply list_find_absent in H.
  unfold updateOrder, deleteOrder. rewrite findIndex_has_id, H. done.
Qed.

Lemma absent_id_no_change_witness :
  updateOrder (mkHost "t" "u" "t") "ORD-404"
    (mkUpdate None None None None (Some completed) None None None) initialService
    = (None, initialService)
  /\ deleteOrder "ORD-404" initialService = (false, initialService)
  /\ length (orders (snd (deleteOrder "ORD-404" initialService)))
     = length (orders initialService).
Proof.
  apply absent_id_no_change.
  intros o Ho. cbn in Ho.
  repeat (apply elem_of_cons in Ho as [->|Ho]; [discriminate|]).
  by apply elem_of_nil in Ho.
Defined.

Lemma statusChanges_None o updateData :
  statusChanges o updateData = None <-> status_kept o updateData.
Proof.
  unfold statusChanges, status_kept.
  destruct (u_status updateData) as [st|]; [|by split; auto].
  destruct (decide (st = status o)) as [->|Hne].
  - split; auto.
  - split; [discriminate|]. intros [E|E]; congruence.
Qed.

Lemma statusChanges_Some o updateData st :
  statusChanges o updateData = Some st <->
  u_status updateData = Some st /\ st <> status o.
Proof.
  unfold statusChanges.
  destruct (u_status updateData) as [st'|]; [|by split; [|intros []]].
  destruct (decide (st' = status o)) as [->|Hne].
  - split; [discriminate|]. intros [E Hne]. congruence.
  - split.
    + intros [= ->]. done.
    + intros [[= ->] _]. done.
Qed.

(** The order an update stores in place of [o]. *)
Lemma updateOrder_found h oid updateData s i o :
  list_find (has_id oid) (orders s) = Some (i, o) ->
  exists o',
    updateOrder h oid updateData s
    = (Some o',
       {| orders := <[i := o']> (orders s);
          notifications := notifications (snd (updateOrder h oid updateData s)) |})
    /\ orders s !! i = Some o
    /\ orders (snd (updateOrder h oid updateData s)) !! i = Some o'
    /\ updatedAt o' = now h
    /\ orderId o' = orderId o
    /\ match statusChanges o updateData with
       | Some st =>
           notes o' = notes o ++ [statusNote (status o) st]
           /\ emitted
                (notification_of h
                   {| d_type := order_updated;
                      d_title := "Order Status Updated";
                      d_message :=
                        "Order " +:+ oid +:+ " status changed to " +:+ status_str st;
                      d_orderId := oid |})
                s (snd (updateOrder h oid updateData s))
       | None =>
           notes o' = spread (notes o) (u_notes updateData)
           /\ notifications (snd (updateOrder h oid updateData s)) = notifications s
       end.
Proof.
  intros F. pose proof F as (L & _ & _)%list_find_Some.
  pose proof (lookup_lt_Some _ _ _ L) as Hlt.
  unfold updateOrder. rewrite F.
  destruct (statusChanges o updateData) as [st|]; cbn [fst snd orders notifications].
  - eexists. split; [reflexivity|]. split; [done|].
    split; [by apply list_lookup_insert_eq|].
    repeat split.
    match goal with |- emitted _ _ {| orders := _; notifications := notifications (createNotification ?h ?d ?u) |} =>
      destruct (createNotification_emits h d u) as [_ E] end.
    exact E.
  - eexists. split; [reflexivity|]. split; [done|].
    split; [by apply list_lookup_insert_eq|]. done.
Qed.

(** The lookup of an update finds an order whenever the store has one with
    the identifier: the first such order. *)
Lemma existing_order_found oid s :
  (exists o, o ∈ orders s /\ orderId o = oid) ->
  exists i o, list_find (has_id oid) (orders s) = Some (i, o) /\ orderId o = oid.
Proof.
  intros (o & Ho & E).
  destruct (list_find_elem_of (has_id oid) (orders s) o Ho E) as [[i o'] F].
  exists i, o'. split; [done|]. by apply list_find_Some in F as (_ & ? & _).
Qed.

(** C3.  An update of the order the lookup finds stores the updated order
    in its place with [updatedAt] set to the time of the update, whatever
    the payload.  When the payload carries a status other than the current
    one, the stored notes are the previous notes and one more, the note
    "Status changed from <old> to <new>", and one [order_updated]
    notification for the identifier is put in front of the notifications. *)
Theorem updateOrder_status_change h oid updateData s i o :
  list_find (has_id oid) (orders s) = Some (i, o) ->
  let s' := snd (updateOrder h oid updateData s) in
  exists o',
    fst (updateOrder h oid updateData s) = Some o'
    /\ orders s' = <[i := o']> (orders s)
    /\ orders s' !! i = Some o'
    /\ updatedAt o' = now h
    /\ forall st, u_status updateData = Some st -> st <> status o ->
         length (notes o') = S (length (notes o))
         /\ notes o `prefix_of` notes o'
         /\ last (notes o')
            = Some ("Status changed from " +:+ status_str (status o)
                      +:+ " to " +:+ status_str st)
         /\ exists n, emitted n s s'
              /\ n_type n = order_updated
              /\ n_orderId n = oid.
Proof.
  intros F s'.
  destruct (updateOrder_found h oid updateData s i o F)
    as (o' & E & L & L' & U & _ & C).
  exists o'. subst s'. split; [by rewrite E|].
  split; [by rewrite E at 1|].
  split; [done|]. split; [done|].
  intros st Hst Hne.
  assert (statusChanges o updateData = Some st) as Hc
    by by apply statusChanges_Some.
  rewrite Hc in C. destruct C as [N Em]. rewrite N.
  split; [rewrite length_app; cbn; lia|].
  split; [by apply prefix_app_r|].
  split; [by rewrite last_snoc|].
  eexists. split; [exact Em|]. done.
Qed.

Lemma find_ORD_003 :
  list_find (has_id "ORD-003") (orders initialService)
  = Some (2%nat, mkOrder "ORD-003" "Mike Davis" (Some "mike.davis@email.com")
      (num 215000 100) "2024-01-13T09:15:00Z"
      (Some "Premium gaming setup with accessories") pending
      (Some "/uploads/invoices/invoice-003.pdf") (Some "invoice-003.pdf")
      (Some "Bank Transfer") (Some "789 Pine Rd, Seattle, WA 98101, USA")
      ["Order received and awaiting payment confirmation"]
      "2024-01-13T09:15:00Z" "2024-01-13T09:15:00Z").
Proof. reflexivity. Qed.

Lemma updateOrder_status_change_witness :
  exists o',
    fst (updateOrder (mkHost "2024-02-01T08:00:00.000Z" "id-1" "2024-02-01T08:00:00.001Z")
           "ORD-003" (mkUpdate None None None None (Some processing) None None None)
           initialService) = Some o'
    /\ updatedAt o' = "2024-02-01T08:00:00.000Z"
    /\ last (notes o') = Some "Status changed from pending to processing".
Proof.
  destruct (updateOrder_status_change
              (mkHost "2024-02-01T08:00:00.000Z" "id-1" "2024-02-01T08:00:00.001Z")
              "ORD-003" (mkUpdate None None None None (Some processing) None None None)
              initialService _ _ find_ORD_003)
    as (o' & E & _ & _ & U & C).
  exists o'. split; [exact E|]. split; [exact U|].
  destruct (C processing eq_refl) as (_ & _ & La & _); [discriminate|].
  exact La.
Defined.

(** C10.  When the payload carries both notes and a status other than the
    current one, the stored notes are the previous stored notes followed by
    the status note; the notes of the payload play no part: the call does
    what it does on the same payload without them. *)
Theorem updateOrder_drops_payload_notes h oid updateData s i o ns st :
  list_find (has_id oid) (orders s) = Some (i, o) ->
  u_notes updateData = Some ns ->
  u_status updateData = Some st ->
  st <> status o ->
  updateOrder h oid updateData s = updateOrder h oid (without_notes updateData) s
  /\ exists o',
       orders (snd (updateOrder h oid updateData s)) !! i = Some o'
       /\ notes o' = notes o ++ [statusNote (status o) st].
Proof.
  intros F Hn Hs Hne.
  assert (statusChanges o updateData = Some st) as Hc
    by by apply statusChanges_Some.
  split.
  - unfold updateOrder. rewrite F.
    replace (statusChanges o (without_notes updateData)) with (Some st)
      by (symmetry; by apply statusChanges_Some).
    rewrite Hc. done.
  - destruct (updateOrder_found h oid updateData s i o F)
      as (o' & _ & _ & L' & _ & _ & C).
    rewrite Hc in C. exists o'. split; [done|]. apply C.
Qed.

Lemma updateOrder_drops_payload_notes_witness :
  exists o',
    orders (snd (updateOrder (mkHost "2024-02-01T08:00:00.000Z" "id-1" "2024-02-01T08:00:00.001Z")
                   "ORD-003"
                   (mkUpdate None None None None (Some completed) None None (Some ["called customer"]))
                   initialService)) !! 2%nat = Some o'
    /\ notes o' = [ "Order received and awaiting payment confirmation";
                    "Status changed from pending to completed" ].
Proof.
  destruct (updateOrder_drops_payload_notes
              (mkHost "2024-02-01T08:00:00.000Z" "id-1" "2024-02-01T08:00:00.001Z")
              "ORD-003"
              (mkUpdate None None None None (Some completed) None None (Some ["called customer"]))
              initialService _ _ ["called customer"] completed find_ORD_003 eq_refl eq_refl)
    as (_ & o' & L & N); [discriminate|].
  exists o'. split; [exact L|exact N].
Defined.

(** ** Notes *)

Lemma deleteOrder_orders oid s :
  orders (snd (deleteOrder oid s)) `sublist_of` orders s.
Proof.
  unfold deleteOrder. rewrite findIndex_has_id.
  destruct (list_find (has_id oid) (orders s)) as [[i o]|]; cbn; [|done].
  apply sublist_delete.
Qed.

(** C2, as amended.  An operation other than an update that carries notes
    without a change of status takes no notes away: a created order goes in
    front of the stored ones, a deletion leaves the remaining ones as they
    were, and an update keeps every order in its place, its previous notes
    a prefix of its notes, and its notes the same when the payload omits
    the status or repeats the current one. *)
Theorem notes_only_appended op s :
  replaces_notes op s = false -> op_keeps_notes op s.
Proof.
  destruct op as [h orderData invoiceFile|h oid updateData|oid]; cbn [op_keeps_notes step].
  - intros _. done.
  - intros R i x Lx. cbn [replaces_notes] in R.
    destruct (list_find (has_id oid) (orders s)) as [[k e]|] eqn:F.
    + destruct (updateOrder_found h oid updateData s k e F)
        as (o' & E & L & L' & _ & _ & C).
      destruct (decide (i = k)) as [->|Hne].
      * assert (x = e) as -> by congruence.
        exists o'. split; [done|].
        destruct (statusChanges e updateData) as [st|] eqn:Hc.
        -- destruct C as [N _]. rewrite N. split; [by apply prefix_app_r|].
           intros K%statusChanges_None. congruence.
        -- destruct C as [N _]. rewrite N.
           destruct (u_notes updateData); [discriminate|]. done.
      * exists x. rewrite E. cbn [snd orders].
        rewrite list_lookup_insert_ne by done. done.
    + exists x. unfold updateOrder. rewrite F. done.
  - intros _. apply deleteOrder_orders.
Qed.

Lemma notes_only_appended_witness :
  op_keeps_notes
    (OpUpdate (mkHost "2024-02-01T08:00:00.000Z" "id-1" "2024-02-01T08:00:00.001Z")
       "ORD-003" (mkUpdate (Some "M. Davis") None None None None None None None))
    initialService.
Proof. apply notes_only_appended. reflexivity. Defined.

(** C2 as stated fails: an update of ORD-003 that carries notes and no
    status stores the notes of the payload in place of the previous ones. *)
Lemma update_with_notes_replaces :
  ~ op_keeps_notes
      (OpUpdate (mkHost "2024-02-01T08:00:00.000Z" "id-1" "2024-02-01T08:00:00.001Z")
         "ORD-003" (mkUpdate None None None None None None None (Some ["called customer"])))
      initialService.
Proof.
  intros K. cbn [op_keeps_notes] in K.
  destruct (K 2%nat _ eq_refl) as (o' & L & P & _).
  vm_compute in L. injection L as <-. cbn [notes] in P.
  destruct P as [k P]. discriminate.
Qed.

(** What such an update stores: the merged order, whose notes are those of
    the payload. *)
Lemma updateOrder_payload_notes h oid updateData s i o ns :
  list_find (has_id oid) (orders s) = Some (i, o) ->
  u_notes updateData = Some ns ->
  status_kept o updateData ->
  exists o', orders (snd (updateOrder h oid updateData s)) !! i = Some o'
    /\ notes o' = ns.
Proof.
  intros F Hn K%statusChanges_None.
  destruct (updateOrder_found h oid updateData s i o F)
    as (o' & _ & _ & L' & _ & _ & C).
  rewrite K in C. exists o'. split; [done|].
  destruct C as [-> _]. by rewrite Hn.
Qed.

(** ** Identifiers *)

(** C1.  The claim fails on the code.  In the state reached from the
    initial one by deleting ORD-001, every identifier names one order; a
    create in that state returns an order with the identifier ORD-005,
    which the stored order ORD-005 already has, and leaves a store in which
    the identifier names two orders. *)
Theorem createOrder_reuses_id_after_delete :
  let s := run [OpDelete "ORD-001"] initialService in
  let h := mkHost "2024-02-01T08:00:00.000Z" "id-1" "2024-02-01T08:00:00.001Z" in
  let orderData := mkCreate "Ada Park" None (num 4200 100) None None None in
  let o := fst (createOrder h orderData None s) in
  let s' := snd (createOrder h orderData None s) in
  reachable s
  /\ unique_ids s
  /\ orderId o = "ORD-005"
  /\ (exists j o', orders s !! j = Some o' /\ orderId o' = orderId o)
  /\ reachable s'
  /\ ~ unique_ids s'.
Proof.
  cbn zeta. split; [by eexists|].
  split; [apply (bool_decide_eq_true_1 (unique_ids _)); by vm_compute|].
  split; [by vm_compute|].
  split.
  - exists 3%nat. eexists. split; reflexivity.
  - split.
    + exists [OpDelete "ORD-001";
              OpCreate (mkHost "2024-02-01T08:00:00.000Z" "id-1" "2024-02-01T08:00:00.001Z")
                (mkCreate "Ada Park" None (num 4200 100) None None None) None].
      reflexivity.
    + apply (bool_decide_eq_false_1 (unique_ids _)). by vm_compute.
Qed.

(** ** Search *)

Lemma startsWith_spec s t :
  JS.startsWith s t = true <-> exists post, s = t +:+ post.
Proof.
  revert s. induction t as [|b t IH]; intros s; cbn.
  - split; [by exists s|done].
  - destruct s as [|a s]; cbn.
    + split; [done|]. by intros [post ?].
    + rewrite andb_true_iff, bool_decide_eq_true, IH. split.
      * intros [-> [post ->]]. by exists post.
      * intros [post [= -> ->]]. split; [done|]. by exists post.
Qed.

Lemma includes_spec s t :
  JS.includes s t = true <-> substring t s.
Proof.
  unfold substring. induction s as [|a s IH]; cbn [JS.includes].
  - rewrite orb_false_r, startsWith_spec. split.
    + intros [post E]. by exists "", post.
    + intros (pre & post & E). destruct pre; [|done]. by exists post.
  - rewrite orb_true_iff, startsWith_spec, IH. split.
    + intros [[post E]|(pre & post & E)].
      * by exists "", post.
      * exists (String a pre), post. cbn. by rewrite E.
    + intros (pre & post & E). destruct pre as [|c pre]; cbn in E.
      * left. by exists post.
      * right. injection E as -> E. by exists pre, post.
Qed.

Lemma searchMatches_spec term o :
  searchMatches (JS.toLowerCase term) o = true <-> search_hit term o.
Proof.
  unfold searchMatches, search_hit.
  rewrite !orb_true_iff, !includes_spec.
  destruct (customerEmail o) as [email|].
  - rewrite includes_spec. split.
    + intros [[H|H]|H]; [by left|by right; left|].
      right; right. by exists email.
    + intros [H|[H|(e & [= <-] & H)]]; auto.
  - split.
    + intros [[H|H]|H]; [by left|by right; left|done].
    + intros [H|[H|(e & ? & _)]]; [auto|auto|done].
Qed.

Lemma substring_empty s : substring "" s.
Proof. by exists "", s. Qed.

Lemma filterStatus_sub q l o : o ∈ filterStatus q l -> o ∈ l.
Proof.
  unfold filterStatus. destruct (q_status q); [|done].
  by intros [_ ?]%list_elem_of_filter.
Qed.

Lemma filterDateFrom_sub D q l o : o ∈ filterDateFrom D q l -> o ∈ l.
Proof.
  unfold filterDateFrom. destruct (dateFrom q) as [d|]; [|done].
  destruct (JS.truthy (Some d)); [|done].
  by intros [_ ?]%list_elem_of_filter.
Qed.

Lemma filterDateTo_sub D q l o : o ∈ filterDateTo D q l -> o ∈ l.
Proof.
  unfold filterDateTo. destruct (dateTo q) as [d|]; [|done].
  destruct (JS.truthy (Some d)); [|done].
  by intros [_ ?]%list_elem_of_filter.
Qed.

(** C7.  With a search term in the query, an order is kept by the search
    step exactly when the lowered term occurs in its lowered identifier, in
    its lowered customer name, or in its lowered e-mail address, which it
    must then have; and every order the filters of a query let through
    meets this. *)
Theorem search_filter_hits q term :
  search q = Some term ->
  (forall l o, o ∈ filterSearch q l <-> o ∈ l /\ search_hit term o)
  /\ (forall Date_time s o, o ∈ filteredOrders Date_time q s -> search_hit term o).
Proof.
  intros Hs.
  assert (forall l o, o ∈ filterSearch q l <-> o ∈ l /\ search_hit term o) as H.
  { intros l o. unfold filterSearch. rewrite Hs.
    destruct term as [|c term]; cbn [JS.truthy].
    - split; [|by intros []]. intros ?. split; [done|].
      left. apply substring_empty.
    - rewrite list_elem_of_filter, Is_true_true, searchMatches_spec. tauto. }
  split; [exact H|].
  intros D s o Ho. unfold filteredOrders in Ho.
  apply filterDateTo_sub, filterDateFrom_sub in Ho.
  by apply H in Ho as [_ ?].
Qed.

Lemma search_filter_hits_witness :
  exists o,
    sampleOrders !! 0%nat = Some o
    /\ (o ∈ filterSearch
              (mkQuery (Qc_of_Z 1) (Qc_of_Z 10) None (Some "SMITH") by_orderDate desc None None)
              sampleOrders
         <-> o ∈ sampleOrders /\ search_hit "SMITH" o).
Proof.
  eexists. split; [reflexivity|].
  apply (search_filter_hits
           (mkQuery (Qc_of_Z 1) (Qc_of_Z 10) None (Some "SMITH") by_orderDate desc None None)
           "SMITH" eq_refl).
Defined.

(** ** Analytics *)








(** ** Sorting *)

Section Sort.
Context {A : Type} (cmp : A -> A -> Z).

Lemma sort_insert_perm x l : JS.sort_insert cmp x l ≡ₚ x :: l.
Proof.
  induction l as [|y l IH]; cbn; [done|].
  destruct (cmp y x <? 0); [|done].
  rewrite IH. apply Permutation_swap.
Qed.

Lemma sort_perm l : JS.sort cmp l ≡ₚ l.
Proof.
  induction l as [|x l IH]; cbn; [done|].
  by rewrite sort_insert_perm, IH.
Qed.

Lemma sort_length l : length (JS.sort cmp l) = length l.
Proof. by rewrite sort_perm. Qed.

Hypothesis cmp_asym : forall a b, cmp a b < 0 -> ~ cmp b a < 0.
Hypothesis may_precede_trans :
  forall a b c, may_precede cmp a b -> may_precede cmp b c -> may_precede cmp a c.

Lemma sort_insert_sorted x l :
  StronglySorted (may_precede cmp) l ->
  StronglySorted (may_precede cmp) (JS.sort_insert cmp x l).
Proof.
  induction 1 as [|y l Hl IH Hy]; cbn.
  - repeat constructor.
  - destruct (Z.ltb_spec (cmp y x) 0) as [Hlt|Hge].
    + constructor; [done|].
      rewrite sort_insert_perm. constructor; [|done].
      unfold may_precede. apply Z.ltb_ge.
      specialize (cmp_asym _ _ Hlt). lia.
    + assert (may_precede cmp x y) as Hxy by by apply Z.ltb_ge.
      constructor; [by constructor|].
      constructor; [done|].
      eapply Forall_impl; [exact Hy|].
      intros z Hz. by eapply may_precede_trans.
Qed.

Lemma sort_sorted l : StronglySorted (may_precede cmp) (JS.sort cmp l).
Proof.
  induction l as [|x l IH]; cbn; [constructor|].
  by apply sort_insert_sorted.
Qed.

(** Stability: the elements of a class of ties come out in the order
    they went in. *)
Lemma sort_insert_filter (P : A -> Prop) `{!forall a, Decision (P a)} x l :
  (forall a b, P a -> P b -> may_precede cmp a b) ->
  filter P (JS.sort_insert cmp x l) = filter P (x :: l).
Proof.
  intros Htie. induction l as [|y l IH]; cbn [JS.sort_insert]; [done|].
  destruct (Z.ltb_spec (cmp y x) 0) as [Hlt|Hge]; [|done].
  rewrite filter_cons, IH, !filter_cons.
  destruct (decide (P y)) as [Py|Py], (decide (P x)) as [Px|Px]; try done.
  specialize (Htie x y Px Py). unfold may_precede in Htie.
  apply Z.ltb_ge in Htie. lia.
Qed.

Lemma sort_filter (P : A -> Prop) `{!forall a, Decision (P a)} l :
  (forall a b, P a -> P b -> may_precede cmp a b) ->
  filter P (JS.sort cmp l) = filter P l.
Proof.
  intros Htie. induction l as [|x l IH]; cbn [JS.sort]; [done|].
  rewrite sort_insert_filter by done.
  by rewrite !filter_cons, IH.
Qed.

End Sort.

(** *** Order on strings and on sort keys *)

Lemma ascii_compare_lt_trans a b c :
  Ascii.compare a b = Lt -> Ascii.compare b c = Lt -> Ascii.compare a c = Lt.
Proof.
  unfold Ascii.compare. rewrite !N.compare_lt_iff. lia.
Qed.

Lemma string_compare_lt_trans s1 s2 s3 :
  String.compare s1 s2 = Lt -> String.compare s2 s3 = Lt ->
  String.compare s1 s3 = Lt.
Proof.
  revert s2 s3. induction s1 as [|a s1 IH]; intros [|b s2] [|c s3]; cbn; try done.
  destruct (Ascii.compare a b) eqn:Eab; try done;
    destruct (Ascii.compare b c) eqn:Ebc; try done.
  - apply Ascii.compare_eq_iff in Eab as ->. rewrite Ebc. apply IH.
  - apply Ascii.compare_eq_iff in Eab as ->. by rewrite Ebc.
  - apply Ascii.compare_eq_iff in Ebc as <-. by rewrite Eab.
  - by rewrite (ascii_compare_lt_trans a b c).
Qed.

Lemma string_leb_ltb s t : String.leb s t = true <-> String.ltb t s = false.
Proof.
  unfold String.leb, String.ltb. rewrite (String.compare_antisym t s).
  destruct (String.compare s t); cbn; split; done.
Qed.

Lemma string_compare_refl s : String.compare s s = Eq.
Proof.
  induction s as [|a s IH]; cbn; [done|].
  unfold Ascii.compare. by rewrite N.compare_refl.
Qed.

Lemma string_leb_trans s1 s2 s3 :
  String.leb s1 s2 = true -> String.leb s2 s3 = true -> String.leb s1 s3 = true.
Proof.
  unfold String.leb.
  destruct (String.compare s1 s2) eqn:E12; try done;
    destruct (String.compare s2 s3) eqn:E23; try done; intros _ _.
  - apply String.compare_eq_iff in E12 as ->. by rewrite E23.
  - apply String.compare_eq_iff in E12 as ->. by rewrite E23.
  - apply String.compare_eq_iff in E23 as <-. by rewrite E12.
  - by rewrite (string_compare_lt_trans s1 s2 s3).
Qed.

Lemma key_le_not_lt key a b :
  key_le key a b <-> JS.lt (field key b) (field key a) = false.
Proof.
  unfold key_le.
  destruct key; cbn; try apply string_leb_ltb.
  rewrite bool_decide_eq_false. apply Qcle_ngt.
Qed.

Lemma key_le_trans key a b c :
  key_le key a b -> key_le key b c -> key_le key a c.
Proof.
  unfold key_le.
  destruct key; cbn; try apply string_leb_trans.
  apply Qcle_trans.
Qed.

Lemma key_le_refl key a b : same_key key a b -> key_le key a b.
Proof.
  unfold same_key, key_le. intros <-.
  destruct key; cbn; try (unfold String.leb; by rewrite string_compare_refl).
  apply Qcle_refl.
Qed.

Lemma key_lt_asym key a b :
  JS.lt (field key a) (field key b) = true ->
  JS.lt (field key b) (field key a) = false.
Proof.
  destruct key; cbn;
    try (unfold String.ltb;
         rewrite (String.compare_antisym (_ b) (_ a));
         by destruct (String.compare _ _)).
  rewrite bool_decide_eq_true, bool_decide_eq_false.
  intros H1 H2. by eapply Qclt_not_le; [exact H1|apply Qclt_le_weak].
Qed.

(** What the comparator says, by direction. *)
Lemma may_precede_comparator q a b :
  may_precede (comparator q) a b <->
  match sortOrder q with
  | asc => key_le (sortBy q) a b
  | desc => key_le (sortBy q) b a
  end.
Proof.
  unfold may_precede, comparator.
  destruct (sortOrder q); rewrite key_le_not_lt.
  - destruct (JS.lt (field (sortBy q) b) (field (sortBy q) a)) eqn:E.
    + rewrite (key_lt_asym _ _ _ E). done.
    + by destruct (JS.lt (field (sortBy q) a) (field (sortBy q) b)).
  - destruct (JS.lt (field (sortBy q) a) (field (sortBy q) b)) eqn:E.
    + done.
    + by destruct (JS.lt (field (sortBy q) b) (field (sortBy q) a)).
Qed.

Lemma comparator_asym q a b :
  comparator q a b < 0 -> ~ comparator q b a < 0.
Proof.
  unfold comparator.
  destruct (JS.lt (field (sortBy q) a) (field (sortBy q) b)) eqn:E1;
    [rewrite (key_lt_asym _ _ _ E1)|];
    destruct (JS.lt (field (sortBy q) b) (field (sortBy q) a)) eqn:E2;
    destruct (sortOrder q); lia.
Qed.

Lemma may_precede_comparator_trans q a b c :
  may_precede (comparator q) a b -> may_precede (comparator q) b c ->
  may_precede (comparator q) a c.
Proof.
  rewrite !may_precede_comparator. destruct (sortOrder q).
  - apply key_le_trans.
  - intros H1 H2. by eapply key_le_trans.
Qed.

Lemma StronglySorted_lookup {A} (R : A -> A -> Prop) l i j a b :
  StronglySorted R l -> (i < j)%nat -> l !! i = Some a -> l !! j = Some b -> R a b.
Proof.
  intros Hs. revert i j. induction Hs as [|x l Hl IH Hx]; intros i j Hij Hi Hj.
  - done.
  - destruct j as [|j]; [lia|]. cbn in Hj. destruct i as [|i]; cbn in Hi.
    + injection Hi as ->. rewrite Forall_forall in Hx.
      apply Hx. by eapply list_elem_of_lookup_2.
    + eapply IH; [|done..]. lia.
Qed.

Lemma sortedOrders_ordered Date_time q s :
  ordered_by (key_le (sortBy q)) (sortOrder q) (sortedOrders Date_time q s).
Proof.
  intros i j a b Hij Hi Hj.
  pose proof (sort_sorted (comparator q) (comparator_asym q)
                (may_precede_comparator_trans q) (filteredOrders Date_time q s)) as Hs.
  pose proof (StronglySorted_lookup _ _ _ _ _ _ Hs Hij Hi Hj) as H.
  by apply may_precede_comparator in H.
Qed.

Lemma sortedOrders_stable Date_time q s a :
  filter (same_key (sortBy q) a) (sortedOrders Date_time q s)
  = filter (same_key (sortBy q) a) (filteredOrders Date_time q s).
Proof.
  apply sort_filter. intros x y Hx Hy.
  apply may_precede_comparator.
  assert (same_key (sortBy q) x y) as Hxy by (unfold same_key in *; congruence).
  assert (same_key (sortBy q) y x) as Hyx by (unfold same_key in *; congruence).
  destruct (sortOrder q); by apply key_le_refl.
Qed.

(** ** Pagination *)

Lemma Qfloor_nonneg (x : Qc) : (0 <= x)%Qc -> 0 <= Qfloor x.
Proof.
  intros H. rewrite <- (Qfloor_Z 0). by apply Qfloor_resp_le.
Qed.

Lemma relIndex_nonneg len (x : Qc) :
  (0 <= x)%Qc -> JS.relIndex len x = Nat.min (floor_index x) len.
Proof.
  intros H. unfold JS.relIndex, JS.ToInteger, floor_index.
  destruct (Qclt_le_dec x 0) as [Hlt|_].
  { by apply Qclt_not_le in Hlt. }
  pose proof (Qfloor_nonneg x H).
  destruct (Z.ltb_spec (Qfloor x) 0); lia.
Qed.

Lemma take_drop_clamped {A} (l : list A) b e :
  take (Nat.min e (length l) - Nat.min b (length l)) (drop (Nat.min b (length l)) l)
  = take (e - b) (drop b l).
Proof.
  destruct (Nat.le_gt_cases (length l) b) as [Hb|Hb].
  - rewrite (Nat.min_r b) by done. rewrite !drop_ge by lia. by rewrite !take_nil.
  - rewrite (Nat.min_l b) by lia.
    destruct (Nat.le_gt_cases (length l) e) as [He|He].
    + rewrite (Nat.min_r e) by done.
      rewrite !take_ge; [done|rewrite length_drop; lia..].
    + by rewrite (Nat.min_l e) by lia.
Qed.

Lemma slice_nonneg {A} (l : list A) (x y : Qc) :
  (0 <= x)%Qc -> (0 <= y)%Qc ->
  JS.slice l x y = take (floor_index y - floor_index x) (drop (floor_index x) l).
Proof.
  intros Hx Hy. unfold JS.slice.
  rewrite !relIndex_nonneg by done. apply take_drop_clamped.
Qed.

Lemma floor_index_of_nat n : floor_index (Qc_of_nat n) = n.
Proof.
  unfold floor_index, Qc_of_nat, Qc_of_Z. cbn [this]. rewrite Qfloor_Z. lia.
Qed.

Lemma floor_index_mono (x y : Qc) :
  (x <= y)%Qc -> (floor_index x <= floor_index y)%nat.
Proof.
  intros H. unfold floor_index.
  pose proof (Qfloor_resp_le x y H) as Hf.
  revert Hf. generalize (Qfloor x) (Qfloor y). clear. lia.
Qed.

Lemma Qc_of_nat_S k : Qc_of_nat (S k) = (Qc_of_nat k + Qc_of_Z 1)%Qc.
Proof.
  unfold Qc_of_nat. rewrite <- Z2Qc_inj_add. f_equal. lia.
Qed.

Lemma Qc_of_nat_nonneg k : (0 <= Qc_of_nat k)%Qc.
Proof.
  unfold Qc_of_nat. rewrite <- Z2Qc_inj_0.
  apply (proj1 (Z2Qc_inj_le 0 (Z.of_nat k))). lia.
Qed.

Lemma page_start_S (q : OrderQuery) k :
  startIndex (with_page q (Qc_of_nat (S k))) = (Qc_of_nat k * limit q)%Qc.
Proof.
  unfold startIndex. cbn [page limit with_page]. rewrite Qc_of_nat_S.
  generalize (Qc_of_Z 1) (Qc_of_nat k) (limit q). intros. ring.
Qed.

Lemma page_end_S (q : OrderQuery) k :
  (startIndex (with_page q (Qc_of_nat (S k))) + limit q)%Qc
  = (Qc_of_nat (S k) * limit q)%Qc.
Proof.
  rewrite page_start_S, Qc_of_nat_S.
  rewrite Z2Qc_inj_1. generalize (Qc_of_nat k) (limit q). intros. ring.
Qed.

Lemma getOrders_page Date_time q s :
  (0 <= startIndex q)%Qc -> (0 <= limit q)%Qc ->
  page_orders (getOrders Date_time q s)
  = take (floor_index (startIndex q + limit q) - floor_index (startIndex q))
      (drop (floor_index (startIndex q)) (sortedOrders Date_time q s)).
Proof.
  intros H1 H2. unfold getOrders. cbn [page_orders]. fold (startIndex q).
  apply slice_nonneg; [done|].
  rewrite <- (Qcplus_0_r 0). by apply Qcplus_le_compat.
Qed.

Lemma pages_upto_take Date_time q s n :
  (0 < limit q)%Qc ->
  pages_upto Date_time q s n
  = take (floor_index (Qc_of_nat n * limit q)) (sortedOrders Date_time q s).
Proof.
  intros Hl. pose proof (Qclt_le_weak _ _ Hl) as Hl'.
  unfold pages_upto. induction n as [|n IH].
  - cbn. replace (Qc_of_nat 0 * limit q)%Qc with (Qc_of_nat 0).
    + by rewrite floor_index_of_nat.
    + change (Qc_of_nat 0) with (Qc_of_Z 0). rewrite Z2Qc_inj_0.
      by rewrite Qcmult_0_l.
  - rewrite seq_S, fmap_app, concat_app, IH. cbn [fmap list_fmap concat Nat.add].
    rewrite app_nil_r.
    assert (0 <= Qc_of_nat n * limit q)%Qc as Hn.
    { rewrite <- (Qcmult_0_l (limit q)).
      apply Qcmult_le_mono_nonneg_r; [done|apply Qc_of_nat_nonneg]. }
    rewrite getOrders_page.
    2:{ rewrite page_start_S. done. }
    2:{ done. }
    change (limit (with_page q (Qc_of_nat (S n)))) with (limit q).
    rewrite page_end_S, page_start_S.
    change (sortedOrders Date_time (with_page q (Qc_of_nat (S n))) s)
      with (sortedOrders Date_time q s).
    rewrite take_take_drop. f_equal.
    assert (floor_index (Qc_of_nat n * limit q) <= floor_index (Qc_of_nat (S n) * limit q))%nat.
    { apply floor_index_mono. apply Qcmult_le_mono_nonneg_r; [done|].
      rewrite Qc_of_nat_S. rewrite <- (Qcplus_0_r (Qc_of_nat n)) at 1.
      apply Qcplus_le_compat; [apply Qcle_refl|].
      rewrite <- Z2Qc_inj_0. by apply (proj1 (Z2Qc_inj_le 0 1)). }
    lia.
Qed.

Lemma Qceiling_upper (c : Qc) : (c <= Qc_of_Z (Qceiling c))%Qc.
Proof. unfold Qcle, Qc_of_Z. cbn [this]. apply Qle_ceiling. Qed.

Lemma totalPages_cover (n : nat) (l : Qc) :
  (0 < l)%Qc -> (n <= floor_index (Qc_of_nat (totalPages n l) * l))%nat.
Proof.
  intros Hl. pose proof (Qclt_le_weak _ _ Hl) as Hl'.
  assert (l <> 0%Qc) as Hne by (intros ->; by apply Qclt_not_eq in Hl).
  unfold totalPages.
  set (c := (Qc_of_nat n / l)%Qc).
  assert (0 <= c)%Qc as Hc.
  { unfold c, Qcdiv. rewrite <- (Qcmult_0_l (/ l)).
    apply Qcmult_le_mono_nonneg_r; [|apply Qc_of_nat_nonneg].
    by apply Qclt_le_weak, Qcinv_pos. }
  assert (0 <= Qceiling c) as Hceil.
  { rewrite <- (Qceiling_Z 0). by apply Qceiling_resp_le. }
  assert (Qc_of_nat (Z.to_nat (Qceiling c)) = Qc_of_Z (Qceiling c)) as ->.
  { unfold Qc_of_nat. f_equal. revert Hceil. generalize (Qceiling c). clear. lia. }
  rewrite <- (floor_index_of_nat n) at 1. apply floor_index_mono.
  replace (Qc_of_nat n) with (c * l)%Qc.
  - apply Qcmult_le_mono_nonneg_r; [done|apply Qceiling_upper].
  - unfold c. rewrite Qcmult_comm. by apply Qcmult_div_r.
Qed.

Lemma pages_cover Date_time q s :
  (0 < limit q)%Qc ->
  pages_upto Date_time q s (totalPages (total (getOrders Date_time q s)) (limit q))
  = sortedOrders Date_time q s.
Proof.
  intros Hl. rewrite pages_upto_take by done.
  apply take_ge. cbn [total getOrders]. by apply totalPages_cover.
Qed.

(** *** The filters as one test *)

Lemma filter_all {A} (P : A -> Prop) `{!forall a, Decision (P a)} (l : list A) :
  (forall a, P a) -> filter P l = l.
Proof.
  intros HP. induction l as [|a l IH]; [done|].
  by rewrite filter_cons_True, IH.
Qed.

Lemma filterStatus_filter q l :
  filterStatus q l = filter (fun o => passes_status q o) l.
Proof.
  unfold filterStatus, passes_status. destruct (q_status q) as [st|].
  - apply list_filter_iff. intros o. by rewrite bool_decide_spec.
  - by rewrite filter_all.
Qed.

Lemma filterSearch_filter q l :
  filterSearch q l = filter (fun o => passes_search q o) l.
Proof.
  unfold filterSearch, passes_search. destruct (search q) as [[|c term]|]; cbn [JS.truthy].
  - by rewrite filter_all.
  - done.
  - by rewrite filter_all.
Qed.

Lemma filterDateFrom_filter D q l :
  filterDateFrom D q l = filter (fun o => passes_dateFrom D q o) l.
Proof.
  unfold filterDateFrom, passes_dateFrom. destruct (dateFrom q) as [[|c d]|]; cbn [JS.truthy].
  - by rewrite filter_all.
  - done.
  - by rewrite filter_all.
Qed.

Lemma filterDateTo_filter D q l :
  filterDateTo D q l = filter (fun o => passes_dateTo D q o) l.
Proof.
  unfold filterDateTo, passes_dateTo. destruct (dateTo q) as [[|c d]|]; cbn [JS.truthy].
  - by rewrite filter_all.
  - done.
  - by rewrite filter_all.
Qed.

Lemma filteredOrders_passes D q s :
  filteredOrders D q s = filter (fun o => passes D q o) (orders s).
Proof.
  unfold filteredOrders.
  rewrite filterStatus_filter, filterSearch_filter, filterDateFrom_filter,
    filterDateTo_filter, !list_filter_filter.
  apply list_filter_iff. intros o. unfold passes.
  rewrite !andb_True. tauto.
Qed.

Lemma Qc_of_nat_mul a b : Qc_of_nat (a * b) = (Qc_of_nat a * Qc_of_nat b)%Qc.
Proof.
  unfold Qc_of_nat. rewrite <- Z2Qc_inj_mul. f_equal. lia.
Qed.

Lemma Qc_of_nat_add a b : Qc_of_nat (a + b) = (Qc_of_nat a + Qc_of_nat b)%Qc.
Proof.
  unfold Qc_of_nat. rewrite <- Z2Qc_inj_add. f_equal. lia.
Qed.

Lemma startIndex_nonneg q :
  (Qc_of_Z 1 <= page q)%Qc -> (0 < limit q)%Qc -> (0 <= startIndex q)%Qc.
Proof.
  intros Hp Hl. unfold startIndex.
  rewrite <- (Qcmult_0_l (limit q)).
  apply Qcmult_le_mono_nonneg_r; [by apply Qclt_le_weak|].
  apply (Qcplus_le_mono_r _ _ (Qc_of_Z 1)).
  replace (page q - Qc_of_Z 1 + Qc_of_Z 1)%Qc with (page q)
    by (generalize (page q) (Qc_of_Z 1); intros; ring).
  by rewrite Qcplus_0_l.
Qed.

(** A page of whole numbers: [limit] orders from index [(page - 1) * limit]. *)
Lemma getOrders_page_whole Date_time q s (p l : nat) :
  page q = Qc_of_nat p -> limit q = Qc_of_nat l -> (1 <= p)%nat ->
  page_orders (getOrders Date_time q s)
  = take l (drop ((p - 1) * l) (sortedOrders Date_time q s)).
Proof.
  intros Hp Hl Hp1. destruct p as [|k]; [lia|].
  assert (startIndex q = Qc_of_nat (k * l)) as Hs.
  { unfold startIndex. rewrite Hp, Hl, Qc_of_nat_S, Qc_of_nat_mul.
    generalize (Qc_of_nat k) (Qc_of_Z 1) (Qc_of_nat l). intros. ring. }
  rewrite getOrders_page.
  - rewrite Hs, Hl, <- Qc_of_nat_add, !floor_index_of_nat.
    f_equal; [lia|]. f_equal. lia.
  - rewrite Hs. apply Qc_of_nat_nonneg.
  - rewrite Hl. apply Qc_of_nat_nonneg.
Qed.

(** C5.  For a query whose page and limit are whole numbers, [page >= 1]
    and [1 <= limit <= 100], the total is the number of stored orders that
    pass all the filters of the query; the page returned is [limit] orders
    of the filtered and sorted sequence from the index
    [(page - 1) * limit]; and the pages 1 to [ceil(total / limit)], one
    after the other, are the filtered and sorted sequence itself, which is
    a rearrangement of the orders that pass the filters.  On whole numbers
    the products and sums of the slice bounds are whole, so that the
    arithmetic of the host gives them as they stand. *)
Theorem getOrders_pagination Date_time q s (p l : nat) :
  page q = Qc_of_nat p ->
  limit q = Qc_of_nat l ->
  (1 <= p)%nat ->
  (1 <= l <= 100)%nat ->
  let r := getOrders Date_time q s in
  let sorted := sortedOrders Date_time q s in
  total r = length (filter (fun o => passes Date_time q o) (orders s))
  /\ sorted ≡ₚ filter (fun o => passes Date_time q o) (orders s)
  /\ page_orders r = take l (drop ((p - 1) * l) sorted)
  /\ pages_upto Date_time q s (totalPages (total r) (limit q)) = sorted.
Proof.
  intros Ep El Hp Hl r sorted. subst r sorted.
  split.
  { cbn [total getOrders]. unfold sortedOrders.
    by rewrite sort_length, filteredOrders_passes. }
  split.
  { unfold sortedOrders. by rewrite sort_perm, filteredOrders_passes. }
  split.
  { by apply getOrders_page_whole. }
  apply pages_cover. rewrite El. unfold Qc_of_nat.
  rewrite <- Z2Qc_inj_0. apply (proj1 (Z2Qc_inj_lt _ _)). lia.
Qed.

Lemma getOrders_pagination_witness :
  let q := mkQuery (Qc_of_Z 2) (Qc_of_Z 2) None None by_customerName asc None None in
  total (getOrders ISO.parse q initialService) = 5%nat
  /\ orderId <$> page_orders (getOrders ISO.parse q initialService) = ["ORD-001"; "ORD-003"]
  /\ pages_upto ISO.parse q initialService 3 = sortedOrders ISO.parse q initialService.
Proof.
  cbn zeta.
  destruct (getOrders_pagination ISO.parse
              (mkQuery (Qc_of_Z 2) (Qc_of_Z 2) None None by_customerName asc None None)
              initialService 2 2)
    as (Ht & _ & Hw & Hc).
  - by apply Qc_is_canon.
  - by apply Qc_is_canon.
  - lia.
  - lia.
  - split; [by rewrite Ht|]. split.
    + rewrite Hw. by vm_compute.
    + exact Hc.
Defined.

(** ** Timestamps: text order and time order *)

Lemma days_upper y m d :
  1 <= m <= 12 -> 1 <= d <= ISO.days_in_month y m ->
  ISO.days_from_civil y m d <= ISO.days_from_civil y 12 31.
Proof. intros Hm Hd. calendar. Qed.

Lemma days_lower y m d :
  1 <= m <= 12 -> 1 <= d <= ISO.days_in_month y m ->
  ISO.days_from_civil y 1 1 <= ISO.days_from_civil y m d.
Proof. intros Hm Hd. calendar. Qed.

Lemma days_next_year y1 y2 :
  y1 < y2 -> ISO.days_from_civil y1 12 31 < ISO.days_from_civil y2 1 1.
Proof. intros H. calendar. Qed.

Lemma days_month_end y m d :
  1 <= m <= 12 -> 1 <= d <= ISO.days_in_month y m ->
  ISO.days_from_civil y m d < ISO.days_from_civil y m 1 + ISO.days_in_month y m.
Proof. intros Hm Hd. calendar. Qed.

Lemma days_month_start y m1 m2 :
  1 <= m1 -> m1 < m2 -> m2 <= 12 ->
  ISO.days_from_civil y m1 1 + ISO.days_in_month y m1 <= ISO.days_from_civil y m2 1.
Proof. intros H1 H2 H3. calendar. Qed.

Lemma days_in_day y m d1 d2 :
  ISO.days_from_civil y m d2 - ISO.days_from_civil y m d1 = d2 - d1.
Proof. unfold ISO.days_from_civil. cbv zeta. lia. Qed.

(** Earlier dates have smaller day numbers. *)
Lemma days_lt y1 m1 d1 y2 m2 d2 :
  1 <= m1 <= 12 -> 1 <= d1 <= ISO.days_in_month y1 m1 ->
  1 <= m2 <= 12 -> 1 <= d2 <= ISO.days_in_month y2 m2 ->
  ISO.lexc (y1 ?= y2) (ISO.lexc (m1 ?= m2) (d1 ?= d2)) = Lt ->
  ISO.days_from_civil y1 m1 d1 < ISO.days_from_civil y2 m2 d2.
Proof.
  intros Hm1 Hd1 Hm2 Hd2.
  destruct (Z.compare_spec y1 y2) as [->|Hy|Hy]; cbn [ISO.lexc]; [|intros _|done].
  - destruct (Z.compare_spec m1 m2) as [->|Hm|Hm]; cbn [ISO.lexc]; [|intros _|done].
    + rewrite Z.compare_lt_iff. intros Hd.
      pose proof (days_in_day y2 m2 d1 d2). lia.
    + pose proof (days_month_end y2 m1 d1 Hm1 Hd1).
      pose proof (days_month_start y2 m1 m2 (proj1 Hm1) Hm (proj2 Hm2)).
      pose proof (days_in_day y2 m2 1 d2). lia.
  - pose proof (days_upper y1 m1 d1 Hm1 Hd1).
    pose proof (days_next_year y1 y2 Hy).
    pose proof (days_lower y2 m2 d2 Hm2 Hd2). lia.
Qed.

Lemma lexc_antisym c1 c2 :
  ISO.lexc (CompOpp c1) (CompOpp c2) = CompOpp (ISO.lexc c1 c2).
Proof. by destruct c1. Qed.

Lemma days_compare y1 m1 d1 y2 m2 d2 :
  1 <= m1 <= 12 -> 1 <= d1 <= ISO.days_in_month y1 m1 ->
  1 <= m2 <= 12 -> 1 <= d2 <= ISO.days_in_month y2 m2 ->
  (ISO.days_from_civil y1 m1 d1 ?= ISO.days_from_civil y2 m2 d2)
  = ISO.lexc (y1 ?= y2) (ISO.lexc (m1 ?= m2) (d1 ?= d2)).
Proof.
  intros Hm1 Hd1 Hm2 Hd2.
  destruct (ISO.lexc (y1 ?= y2) (ISO.lexc (m1 ?= m2) (d1 ?= d2))) eqn:E.
  - destruct (Z.compare_spec y1 y2) as [->|?|?]; cbn [ISO.lexc] in E; try done.
    destruct (Z.compare_spec m1 m2) as [->|?|?]; cbn [ISO.lexc] in E; try done.
    apply Z.compare_eq in E as ->. apply Z.compare_refl.
  - apply Z.compare_lt_iff. by apply days_lt.
  - apply Z.compare_gt_iff. apply days_lt; try done.
    rewrite (Z.compare_antisym y1 y2), (Z.compare_antisym m1 m2),
      (Z.compare_antisym d1 d2), !lexc_antisym, E. done.
Qed.

Lemma lexc_assoc c1 c2 c3 :
  ISO.lexc (ISO.lexc c1 c2) c3 = ISO.lexc c1 (ISO.lexc c2 c3).
Proof. by destruct c1. Qed.

(** Numbers in a radix compare digit by digit. *)
Lemma compare_radix B a b a' b' :
  0 <= b < B -> 0 <= b' < B ->
  (a * B + b ?= a' * B + b') = ISO.lexc (a ?= a') (b ?= b').
Proof.
  intros Hb Hb'. destruct (Z.compare_spec a a') as [->|H|H]; cbn [ISO.lexc].
  - apply Z.add_compare_mono_l.
  - apply Z.compare_lt_iff. nia.
  - apply Z.compare_gt_iff. nia.
Qed.

Lemma compare_div_mod B n n' c :
  0 < B ->
  ISO.lexc (n / B ?= n' / B) (ISO.lexc (n mod B ?= n' mod B) c)
  = ISO.lexc (n ?= n') c.
Proof.
  intros HB. rewrite <- lexc_assoc. f_equal.
  rewrite <- (compare_radix B (n / B) (n mod B) (n' / B) (n' mod B))
    by (by apply Z.mod_pos_bound).
  rewrite !(Z.mul_comm _ B), <- !Z.div_mod by lia. done.
Qed.

Lemma time_compare t1 t2 :
  ISO.valid t1 -> ISO.valid t2 ->
  (ISO.time_of t1 ?= ISO.time_of t2)
  = ISO.lexc (ISO.year t1 ?= ISO.year t2)
      (ISO.lexc (ISO.month t1 ?= ISO.month t2)
         (ISO.lexc (ISO.day t1 ?= ISO.day t2)
            (ISO.lexc (ISO.hour t1 ?= ISO.hour t2)
               (ISO.lexc (ISO.minute t1 ?= ISO.minute t2)
                  (ISO.lexc (ISO.second t1 ?= ISO.second t2)
                     (ISO.millisecond t1 ?= ISO.millisecond t2)))))).
Proof.
  intros (Hy1 & Hm1 & Hd1 & Hh1 & Hi1 & Hs1 & Hl1) (Hy2 & Hm2 & Hd2 & Hh2 & Hi2 & Hs2 & Hl2).
  unfold ISO.time_of.
  rewrite !compare_radix by lia.
  rewrite days_compare by done.
  by rewrite !lexc_assoc.
Qed.

Lemma N_of_digit_char a :
  0 <= a <= 9 -> N_of_ascii (ISO.digit_char a) = Z.to_N (48 + a).
Proof.
  intros Ha. unfold ISO.digit_char. apply N_ascii_embedding. lia.
Qed.

Lemma digit_digit_char a : 0 <= a <= 9 -> ISO.digit (ISO.digit_char a) = Some a.
Proof.
  intros Ha. unfold ISO.digit. rewrite N_of_digit_char by done. cbv zeta.
  rewrite Z2N.id by lia.
  destruct (Z.leb_spec 48 (48 + a)); [|lia].
  destruct (Z.leb_spec (48 + a) 57); [|lia].
  cbn [andb]. f_equal. lia.
Qed.

Lemma ascii_compare_digit a b :
  0 <= a <= 9 -> 0 <= b <= 9 ->
  Ascii.compare (ISO.digit_char a) (ISO.digit_char b) = (a ?= b).
Proof.
  intros Ha Hb. unfold Ascii.compare. rewrite !N_of_digit_char by done.
  rewrite Z2N.inj_compare by lia. apply Z.add_compare_mono_l.
Qed.

Lemma compare_cons c s c' s' :
  String.compare (String c s) (String c' s')
  = ISO.lexc (Ascii.compare c c') (String.compare s s').
Proof. cbn. by destruct (Ascii.compare c c'). Qed.

Lemma compare_same c r r' :
  String.compare (string_of_list_ascii (c :: r)) (string_of_list_ascii (c :: r'))
  = String.compare (string_of_list_ascii r) (string_of_list_ascii r').
Proof.
  cbn [string_of_list_ascii]. rewrite compare_cons.
  unfold Ascii.compare. by rewrite N.compare_refl.
Qed.

Lemma compare_d2 n n' r r' :
  0 <= n <= 99 -> 0 <= n' <= 99 ->
  String.compare (string_of_list_ascii (ISO.d2 n ++ r))
                 (string_of_list_ascii (ISO.d2 n' ++ r'))
  = ISO.lexc (n ?= n') (String.compare (string_of_list_ascii r) (string_of_list_ascii r')).
Proof.
  intros Hn Hn'. unfold ISO.d2. cbn [app string_of_list_ascii].
  rewrite !compare_cons.
  assert (0 <= n / 10 <= 9 /\ 0 <= n mod 10 <= 9
          /\ 0 <= n' / 10 <= 9 /\ 0 <= n' mod 10 <= 9) as (H1 & H2 & H3 & H4)
    by (Z.div_mod_to_equations; lia).
  rewrite !ascii_compare_digit by done.
  by apply compare_div_mod.
Qed.

Lemma compare_d3 n n' r r' :
  0 <= n <= 999 -> 0 <= n' <= 999 ->
  String.compare (string_of_list_ascii (ISO.d3 n ++ r))
                 (string_of_list_ascii (ISO.d3 n' ++ r'))
  = ISO.lexc (n ?= n') (String.compare (string_of_list_ascii r) (string_of_list_ascii r')).
Proof.
  intros Hn Hn'. unfold ISO.d3. cbn [app string_of_list_ascii].
  assert (0 <= n / 100 <= 9 /\ 0 <= n mod 100 <= 99
          /\ 0 <= n' / 100 <= 9 /\ 0 <= n' mod 100 <= 99) as (H1 & H2 & H3 & H4)
    by (Z.div_mod_to_equations; lia).
  rewrite compare_cons, ascii_compare_digit, compare_d2 by done.
  by apply compare_div_mod.
Qed.

Lemma compare_d4 n n' r r' :
  0 <= n <= 9999 -> 0 <= n' <= 9999 ->
  String.compare (string_of_list_ascii (ISO.d4 n ++ r))
                 (string_of_list_ascii (ISO.d4 n' ++ r'))
  = ISO.lexc (n ?= n') (String.compare (string_of_list_ascii r) (string_of_list_ascii r')).
Proof.
  intros Hn Hn'. unfold ISO.d4. cbn [app string_of_list_ascii].
  assert (0 <= n / 1000 <= 9 /\ 0 <= n mod 1000 <= 999
          /\ 0 <= n' / 1000 <= 9 /\ 0 <= n' mod 1000 <= 999) as (H1 & H2 & H3 & H4)
    by (Z.div_mod_to_equations; lia).
  rewrite compare_cons, ascii_compare_digit, compare_d3 by done.
  by apply compare_div_mod.
Qed.

Lemma days_in_month_max y m : ISO.days_in_month y m <= 31.
Proof.
  unfold ISO.days_in_month.
  destruct (m =? 2); [destruct (ISO.leap y); lia|].
  destruct (_ || _); lia.
Qed.

(** Texts of one shape compare as their timestamps do. *)
Lemma render_compare sh t1 t2 :
  ISO.valid t1 -> ISO.valid t2 ->
  (sh = false -> ISO.millisecond t1 = 0) ->
  (sh = false -> ISO.millisecond t2 = 0) ->
  String.compare (ISO.render sh t1) (ISO.render sh t2)
  = (ISO.time_of t1 ?= ISO.time_of t2).
Proof.
  intros V1 V2 M1 M2. rewrite time_compare by done.
  destruct V1 as (Hy1 & Hm1 & Hd1 & Hh1 & Hi1 & Hs1 & Hl1).
  destruct V2 as (Hy2 & Hm2 & Hd2 & Hh2 & Hi2 & Hs2 & Hl2).
  pose proof (days_in_month_max (ISO.year t1) (ISO.month t1)).
  pose proof (days_in_month_max (ISO.year t2) (ISO.month t2)).
  unfold ISO.render.
  rewrite compare_d4, compare_same, compare_d2, compare_same, compare_d2,
    compare_same, compare_d2, compare_same, compare_d2, compare_same, compare_d2
    by lia.
  do 6 f_equal.
  destruct sh; cbn [app].
  - rewrite compare_same, compare_d3 by lia. cbn.
    by destruct (_ ?= _).
  - rewrite M1, M2 by done. done.
Qed.

(** Reading back what [render] writes. *)
Lemma digits_step k acc a s :
  0 <= a <= 9 ->
  ISO.digits (S k) acc (ISO.digit_char a :: s) = ISO.digits k (10 * acc + a) s.
Proof.
  intros Ha. cbn [ISO.digits]. by rewrite digit_digit_char.
Qed.

Lemma digits_d2 n r :
  0 <= n <= 99 -> ISO.digits 2 0 (ISO.d2 n ++ r) = Some (n, r).
Proof.
  intros Hn. unfold ISO.d2. cbn [app].
  assert (0 <= n / 10 <= 9 /\ 0 <= n mod 10 <= 9) as [H1 H2]
    by (Z.div_mod_to_equations; lia).
  rewrite !digits_step by done. cbn [ISO.digits].
  do 2 f_equal. Z.div_mod_to_equations. lia.
Qed.

Lemma digits_d4 n r :
  0 <= n <= 9999 -> ISO.digits 4 0 (ISO.d4 n ++ r) = Some (n, r).
Proof.
  intros Hn. unfold ISO.d4, ISO.d3, ISO.d2. cbn [app].
  assert (0 <= n / 1000 <= 9 /\ 0 <= n mod 1000 / 100 <= 9
          /\ 0 <= n mod 1000 mod 100 / 10 <= 9
          /\ 0 <= (n mod 1000 mod 100) mod 10 <= 9) as (H1 & H2 & H3 & H4)
    by (Z.div_mod_to_equations; lia).
  rewrite !digits_step by done. cbn [ISO.digits].
  do 2 f_equal. Z.div_mod_to_equations. lia.
Qed.

Lemma expect_same c r : ISO.expect c (c :: r) = Some r.
Proof. unfold ISO.expect. by destruct (decide (c = c)). Qed.

Lemma digit_Z : ISO.digit "Z" = None.
Proof. reflexivity. Qed.

Lemma millis_d3 n :
  0 <= n <= 999 ->
  ISO.millis ("."%char :: ISO.d3 n ++ ["Z"%char]) = Some (n, ["Z"%char]).
Proof.
  intros Hn. unfold ISO.d3, ISO.d2, ISO.millis. cbn [app].
  assert (0 <= n / 100 <= 9 /\ 0 <= n mod 100 / 10 <= 9
          /\ 0 <= (n mod 100) mod 10 <= 9) as (H1 & H2 & H3)
    by (Z.div_mod_to_equations; lia).
  rewrite digit_digit_char by done. cbn [mbind option_bind ISO.fraction].
  rewrite !digit_digit_char by done.
  change (10 / 10) with 1. change (1 / 10) with 0.
  rewrite digit_Z. do 2 f_equal. Z.div_mod_to_equations. lia.
Qed.

Lemma in_range_ok lo x hi : lo <= x <= hi -> ISO.in_range lo x hi = Some tt.
Proof.
  intros H. unfold ISO.in_range.
  destruct (Z.leb_spec lo x); [|lia]. destruct (Z.leb_spec x hi); [|lia]. done.
Qed.

Lemma parse_render sh t :
  ISO.valid t -> (sh = false -> ISO.millisecond t = 0) ->
  ISO.parse (ISO.render sh t) = Some (ISO.time_of t).
Proof.
  intros (Hy & Hm & Hd & Hh & Hi & Hs & Hl) M.
  pose proof (days_in_month_max (ISO.year t) (ISO.month t)).
  unfold ISO.parse, ISO.render. rewrite list_ascii_of_string_of_list_ascii.
  rewrite digits_d4 by done. cbn [mbind option_bind].
  rewrite expect_same. cbn [mbind option_bind].
  rewrite digits_d2 by lia. cbn [mbind option_bind].
  rewrite expect_same. cbn [mbind option_bind].
  rewrite digits_d2 by lia. cbn [mbind option_bind].
  rewrite expect_same. cbn [mbind option_bind].
  rewrite digits_d2 by lia. cbn [mbind option_bind].
  rewrite expect_same. cbn [mbind option_bind].
  rewrite digits_d2 by lia. cbn [mbind option_bind].
  rewrite expect_same. cbn [mbind option_bind].
  rewrite digits_d2 by lia. cbn [mbind option_bind].
  assert (ISO.millis ((if sh then "."%char :: ISO.d3 (ISO.millisecond t) else []) ++ ["Z"%char])
          = Some (ISO.millisecond t, ["Z"%char])) as ->.
  { destruct sh; cbn [app].
    - by apply millis_d3.
    - rewrite M by done. reflexivity. }
  cbn [mbind option_bind]. rewrite expect_same. cbn [mbind option_bind].
  rewrite !in_range_ok by lia. cbn [mbind option_bind].
  reflexivity.
Qed.

(** On texts of one shape the order of the text is the order in time. *)
Lemma shaped_chrono sh a b :
  ISO.shaped sh (orderDate a) -> ISO.shaped sh (orderDate b) ->
  key_le by_orderDate a b <-> chrono_le a b.
Proof.
  intros (t1 & V1 & M1 & E1) (t2 & V2 & M2 & E2).
  unfold key_le, chrono_le. cbn [field value_le]. rewrite E1, E2.
  unfold String.leb. rewrite render_compare, !parse_render by done.
  split.
  - intros H. exists (ISO.time_of t1), (ISO.time_of t2).
    split; [done|]. split; [done|].
    destruct (Z.compare_spec (ISO.time_of t1) (ISO.time_of t2)); [lia|lia|done].
  - intros (x & y & [= <-] & [= <-] & Hxy).
    destruct (Z.compare_spec (ISO.time_of t1) (ISO.time_of t2)); [done|done|lia].
Qed.

(** *** Texts of the two shapes side by side *)

Lemma render_length sh t :
  String.length (ISO.render sh t) = if sh then 24%nat else 20%nat.
Proof. by destruct sh. Qed.

(** The seconds of two timestamps compare field by field. *)
Lemma seconds_compare t1 t2 :
  ISO.valid t1 -> ISO.valid t2 ->
  (ISO.time_of t1 / 1000 ?= ISO.time_of t2 / 1000)
  = ISO.lexc (ISO.year t1 ?= ISO.year t2)
      (ISO.lexc (ISO.month t1 ?= ISO.month t2)
         (ISO.lexc (ISO.day t1 ?= ISO.day t2)
            (ISO.lexc (ISO.hour t1 ?= ISO.hour t2)
               (ISO.lexc (ISO.minute t1 ?= ISO.minute t2)
                  (ISO.second t1 ?= ISO.second t2))))).
Proof.
  intros (Hy1 & Hm1 & Hd1 & Hh1 & Hi1 & Hs1 & Hl1) (Hy2 & Hm2 & Hd2 & Hh2 & Hi2 & Hs2 & Hl2).
  unfold ISO.time_of.
  rewrite !Z.div_add_l, !(Z.div_small (ISO.millisecond _)), !Z.add_0_r by lia.
  rewrite !compare_radix by lia.
  rewrite days_compare by done.
  by rewrite !lexc_assoc.
Qed.

(** A text with the milliseconds against one without: the seconds decide,
    and within one second the text with the milliseconds is the smaller
    one, since the full stop is below the letter Z. *)
Lemma render_compare_mixed t1 t2 :
  ISO.valid t1 -> ISO.valid t2 ->
  String.compare (ISO.render true t1) (ISO.render false t2)
  = ISO.lexc (ISO.time_of t1 / 1000 ?= ISO.time_of t2 / 1000) Lt
  /\ String.compare (ISO.render false t2) (ISO.render true t1)
     = ISO.lexc (ISO.time_of t2 / 1000 ?= ISO.time_of t1 / 1000) Gt.
Proof.
  intros V1 V2. rewrite !seconds_compare by done.
  destruct V1 as (Hy1 & Hm1 & Hd1 & Hh1 & Hi1 & Hs1 & Hl1).
  destruct V2 as (Hy2 & Hm2 & Hd2 & Hh2 & Hi2 & Hs2 & Hl2).
  pose proof (days_in_month_max (ISO.year t1) (ISO.month t1)).
  pose proof (days_in_month_max (ISO.year t2) (ISO.month t2)).
  unfold ISO.render.
  split;
    rewrite compare_d4, compare_same, compare_d2, compare_same, compare_d2,
      compare_same, compare_d2, compare_same, compare_d2, compare_same, compare_d2
      by lia;
    rewrite !lexc_assoc; by do 6 f_equal.
Qed.

Lemma time_of_whole_second t :
  ISO.millisecond t = 0 -> ISO.time_of t = 1000 * (ISO.time_of t / 1000).
Proof.
  intros M. unfold ISO.time_of. rewrite M, Z.add_0_r, Z.div_mul by lia. lia.
Qed.

(** Where no clash stands in the way, the order of the texts is the order
    in time, whatever the shapes. *)
Lemma stamped_chrono a b :
  stamped (orderDate a) -> stamped (orderDate b) ->
  ~ clash (orderDate a) (orderDate b) ->
  key_le by_orderDate a b -> chrono_le a b.
Proof.
  intros [sh1 S1] [sh2 S2] N K.
  destruct sh1, sh2; try by apply (shaped_chrono _ a b S1 S2).
  - destruct S1 as (t1 & V1 & M1 & E1), S2 as (t2 & V2 & M2 & E2).
    unfold key_le in K. cbn [field value_le] in K. unfold clash in N.
    unfold chrono_le. rewrite E1, E2 in *.
    rewrite !render_length, !parse_render in N by done.
    rewrite !parse_render by done.
    unfold String.leb in K.
    rewrite (proj1 (render_compare_mixed t1 t2 V1 V2)) in K.
    exists (ISO.time_of t1), (ISO.time_of t2). split; [done|]. split; [done|].
    destruct (Z.compare_spec (ISO.time_of t1 / 1000) (ISO.time_of t2 / 1000))
      as [E|L|G]; cbn [ISO.lexc] in K; [| |done].
    + destruct (decide (ISO.time_of t1 = ISO.time_of t2)) as [->|Hne]; [lia|].
      destruct N. split; [lia|done].
    + destruct (Z.le_gt_cases (ISO.time_of t1) (ISO.time_of t2)) as [|Hgt]; [done|].
      assert (ISO.time_of t2 / 1000 <= ISO.time_of t1 / 1000)
        by (apply Z.div_le_mono; lia).
      lia.
  - destruct S1 as (t1 & V1 & M1 & E1), S2 as (t2 & V2 & M2 & E2).
    unfold key_le in K. cbn [field value_le] in K.
    unfold chrono_le. rewrite E1, E2 in *.
    rewrite !parse_render by done.
    unfold String.leb in K.
    rewrite (proj2 (render_compare_mixed t2 t1 V2 V1)) in K.
    exists (ISO.time_of t1), (ISO.time_of t2). split; [done|]. split; [done|].
    destruct (Z.compare_spec (ISO.time_of t1 / 1000) (ISO.time_of t2 / 1000))
      as [E|L|G]; cbn [ISO.lexc] in K; [done| |done].
    destruct (Z.le_gt_cases (ISO.time_of t1) (ISO.time_of t2)) as [|Hgt]; [done|].
    assert (ISO.time_of t2 / 1000 <= ISO.time_of t1 / 1000)
      by (apply Z.div_le_mono; lia).
    lia.
Qed.

(** A text with the milliseconds that clashes with one without is the
    smaller text and the later instant. *)
Lemma clash_mixed t1 t2 (a b : Order) :
  ISO.valid t1 -> ISO.valid t2 -> ISO.millisecond t2 = 0 ->
  orderDate a = ISO.render true t1 -> orderDate b = ISO.render false t2 ->
  ISO.time_of t1 / 1000 = ISO.time_of t2 / 1000 ->
  ISO.time_of t1 <> ISO.time_of t2 ->
  ~ key_le by_orderDate b a /\ ~ chrono_le a b.
Proof.
  intros V1 V2 M2 E1 E2 Hs Hne.
  pose proof (time_of_whole_second t2 M2) as Hw.
  assert (ISO.time_of t2 < ISO.time_of t1) as Hlt.
  { pose proof (Z.mul_div_le (ISO.time_of t1) 1000 ltac:(lia)). lia. }
  split.
  - unfold key_le. cbn [field value_le]. rewrite E1, E2. unfold String.leb.
    rewrite (proj2 (render_compare_mixed t1 t2 V1 V2)), Hs, Z.compare_refl.
    cbn [ISO.lexc]. done.
  - unfold chrono_le. rewrite E1, E2, !parse_render by (done || by intros _).
    intros (x & y & [= <-] & [= <-] & Hxy). lia.
Qed.

(** Of two orders whose dates clash, one stands before the other by its
    text and after it in time. *)
Lemma clash_disagree a b :
  stamped (orderDate a) -> stamped (orderDate b) ->
  clash (orderDate a) (orderDate b) ->
  (~ key_le by_orderDate b a /\ ~ chrono_le a b)
  \/ (~ key_le by_orderDate a b /\ ~ chrono_le b a).
Proof.
  intros [sh1 (t1 & V1 & M1 & E1)] [sh2 (t2 & V2 & M2 & E2)] [Hlen C].
  rewrite E1, E2, !render_length in Hlen.
  rewrite E1, E2, !parse_render in C by done. destruct C as [Hs Hne].
  destruct sh1, sh2; try done.
  - left. apply (clash_mixed t1 t2); (done || by apply M2).
  - right. apply (clash_mixed t2 t1); (done || by apply M1 || by symmetry).
Qed.

(** *** The sorted sequence of a query *)

Lemma ordered_by_slice le dir (l : list Order) (x y : Qc) :
  ordered_by le dir l -> ordered_by le dir (JS.slice l x y).
Proof.
  intros H i j a b Hij Hi Hj. unfold JS.slice in Hi, Hj.
  apply lookup_take_Some in Hi as [Hi _]. apply lookup_take_Some in Hj as [Hj _].
  rewrite lookup_drop in Hi, Hj.
  eapply H; [|exact Hi|exact Hj]. lia.
Qed.

(** C6, as amended.  The sequence a query sorts is the orders of the store
    that pass its filters, in store order; sorted, it is ordered by the
    value of the [sortBy] field, by code units for the string fields
    [orderId], [customerName], [status] and [orderDate], by value for
    [orderAmount], upwards for [asc] and downwards for [desc]; orders with
    the same value of the field keep the order they have in the store; the
    page returned is ordered the same way; for [orderAmount] the amounts
    never decrease under [asc] and never increase under [desc]; and, the
    dates of the sorted orders being texts of valid timestamps with the
    milliseconds or without, the order by [orderDate] is the order in time
    exactly when no two of them clash, that is, when none written with the
    milliseconds and none written without name different instants of one
    second. *)
Theorem sortedOrders_ordered_stable Date_time q s :
  let l := sortedOrders Date_time q s in
  l ≡ₚ filteredOrders Date_time q s
  /\ filteredOrders Date_time q s `sublist_of` orders s
  /\ ordered_by (key_le (sortBy q)) (sortOrder q) l
  /\ ordered_by (key_le (sortBy q)) (sortOrder q)
       (page_orders (getOrders Date_time q s))
  /\ (forall a,
        filter (same_key (sortBy q) a) l
        = filter (fun o => same_key (sortBy q) a o /\ passes Date_time q o) (orders s))
  /\ (sortBy q = by_orderAmount ->
      forall i j a b, (i < j)%nat -> l !! i = Some a -> l !! j = Some b ->
        match sortOrder q with
        | asc => (orderAmount a <= orderAmount b)%Qc
        | desc => (orderAmount b <= orderAmount a)%Qc
        end)
  /\ (Forall (fun o => stamped (orderDate o)) l ->
      (forall a b, a ∈ l -> b ∈ l -> ~ clash (orderDate a) (orderDate b)) ->
      ordered_by (claimed_le (sortBy q)) (sortOrder q) l)
  /\ (sortBy q = by_orderDate ->
      Forall (fun o => stamped (orderDate o)) l ->
      ordered_by (claimed_le by_orderDate) (sortOrder q) l ->
      forall a b, a ∈ l -> b ∈ l -> ~ clash (orderDate a) (orderDate b)).
Proof.
  cbn zeta.
  split; [apply sort_perm|].
  split; [rewrite filteredOrders_passes; apply sublist_filter|].
  split; [apply sortedOrders_ordered|].
  split; [apply ordered_by_slice, sortedOrders_ordered|].
  split.
  { intros a. rewrite sortedOrders_stable, filteredOrders_passes.
    apply list_filter_filter. }
  split.
  { intros Hk i j a b Hij Hi Hj.
    pose proof (sortedOrders_ordered Date_time q s i j a b Hij Hi Hj) as H.
    rewrite Hk in H. exact H. }
  split.
  { intros Hst Hnc i j a b Hij Hi Hj.
    pose proof (sortedOrders_ordered Date_time q s i j a b Hij Hi Hj) as H.
    rewrite Forall_forall in Hst.
    pose proof (list_elem_of_lookup_2 _ _ _ Hi) as Ia.
    pose proof (list_elem_of_lookup_2 _ _ _ Hj) as Ib.
    destruct (sortBy q); cbn [claimed_le]; try exact H.
    destruct (sortOrder q); apply stamped_chrono; auto. }
  intros Hk Hst Hch a b Ia Ib C.
  rewrite Forall_forall in Hst.
  pose proof (sortedOrders_ordered Date_time q s) as Hkey. rewrite Hk in Hkey.
  pose proof Ia as [i Hi]%list_elem_of_lookup_1.
  pose proof Ib as [j Hj]%list_elem_of_lookup_1.
  destruct (clash_disagree a b (Hst a Ia) (Hst b Ib) C) as [[K T]|[K T]];
    destruct (Nat.lt_total i j) as [Hij|[->|Hji]].
  - specialize (Hkey i j a b Hij Hi Hj). specialize (Hch i j a b Hij Hi Hj).
    by destruct (sortOrder q).
  - rewrite Hi in Hj. injection Hj as ->. by apply K, key_le_refl.
  - specialize (Hkey j i b a Hji Hj Hi). specialize (Hch j i b a Hji Hj Hi).
    by destruct (sortOrder q).
  - specialize (Hkey i j a b Hij Hi Hj). specialize (Hch i j a b Hij Hi Hj).
    by destruct (sortOrder q).
  - rewrite Hi in Hj. injection Hj as ->. by apply K, key_le_refl.
  - specialize (Hkey j i b a Hji Hj Hi). specialize (Hch j i b a Hji Hj Hi).
    by destruct (sortOrder q).
Qed.

Lemma shaped_intro sh t str :
  ISO.valid t -> (sh = false -> ISO.millisecond t = 0) ->
  ISO.render sh t = str -> ISO.shaped sh str.
Proof. intros V M <-. by exists t. Qed.

Lemma sample_shaped o :
  o ∈ orders initialService -> ISO.shaped false (orderDate o).
Proof.
  unfold initialService, sampleOrders. cbn [orders]. intros Ho.
  apply elem_of_cons in Ho as [->|Ho].
  { apply (shaped_intro _ (ISO.mkTimestamp 2024 1 15 10 30 0 0));
      [by repeat split; vm_compute|done|reflexivity]. }
  apply elem_of_cons in Ho as [->|Ho].
  { apply (shaped_intro _ (ISO.mkTimestamp 2024 1 14 14 20 0 0));
      [by repeat split; vm_compute|done|reflexivity]. }
  apply elem_of_cons in Ho as [->|Ho].
  { apply (shaped_intro _ (ISO.mkTimestamp 2024 1 13 9 15 0 0));
      [by repeat split; vm_compute|done|reflexivity]. }
  apply elem_of_cons in Ho as [->|Ho].
  { apply (shaped_intro _ (ISO.mkTimestamp 2024 1 12 16 45 0 0));
      [by repeat split; vm_compute|done|reflexivity]. }
  apply elem_of_cons in Ho as [->|Ho].
  { apply (shaped_intro _ (ISO.mkTimestamp 2024 1 11 11 30 0 0));
      [by repeat split; vm_compute|done|reflexivity]. }
  by apply elem_of_nil in Ho.
Qed.

Lemma sortedOrders_ordered_stable_witness :
  ordered_by (claimed_le by_orderDate) desc
    (sortedOrders ISO.parse
       (mkQuery (Qc_of_Z 1) (Qc_of_Z 10) None None by_orderDate desc None None)
       (snd (createOrder
               (mkHost "2024-02-01T08:00:00.000Z" "id-1" "2024-02-01T08:00:00.001Z")
               (mkCreate "Ada Park" None (num 4200 100) None None None) None
               initialService))).
Proof.
  destruct (sortedOrders_ordered_stable ISO.parse
              (mkQuery (Qc_of_Z 1) (Qc_of_Z 10) None None by_orderDate desc None None)
              (snd (createOrder
                      (mkHost "2024-02-01T08:00:00.000Z" "id-1" "2024-02-01T08:00:00.001Z")
                      (mkCreate "Ada Park" None (num 4200 100) None None None) None
                      initialService)))
    as (Hperm & Hsub & _ & _ & _ & _ & H & _).
  apply H.
  - apply Forall_forall. intros o Ho. rewrite Hperm in Ho.
    apply (elem_of_sublist _ _ _ Ho) in Hsub.
    apply elem_of_cons in Hsub as [->|Hs].
    + exists true.
      apply (shaped_intro _ (ISO.mkTimestamp 2024 2 1 8 0 0 0));
        [by repeat split; vm_compute|done|reflexivity].
    + exists false. by apply sample_shaped.
  - match goal with
    | |- forall a b, a ∈ ?l -> _ =>
        assert (Forall (fun a =>
                  Forall (fun b => ~ clash (orderDate a) (orderDate b)) l) l) as F
          by (apply (bool_decide_unpack _); by vm_compute)
    end.
    intros a b Ia Ib. rewrite Forall_forall in F. specialize (F a Ia).
    rewrite Forall_forall in F. by apply F.
Defined.

(** The query of the completed orders of the sample data by falling
    amount: ORD-001 (1299.99), then ORD-004 (799.99), two in all. *)
Example completed_by_amount :
  let r := getOrders ISO.parse
             (mkQuery (Qc_of_Z 1) (Qc_of_Z 10) (Some completed) None
                by_orderAmount desc None None)
             initialService in
  orderId <$> page_orders r = ["ORD-001"; "ORD-004"] /\ total r = 2%nat.
Proof. by vm_compute. Qed.

(** C6 as stated fails for [orderDate].  An order created while the clock
    reads 2024-01-15T10:30:00.500Z is later than ORD-001, dated
    2024-01-15T10:30:00Z; sorted upwards by [orderDate] it comes before
    ORD-001, since its text is the smaller one. *)
Lemma orderDate_sort_not_chronological :
  reachable oneCreated
  /\ ~ ordered_by (claimed_le by_orderDate) asc
         (sortedOrders ISO.parse
            (mkQuery (Qc_of_Z 1) (Qc_of_Z 10) None None by_orderDate asc None None)
            oneCreated).
Proof.
  split.
  - exists [OpCreate
              (mkHost "2024-01-15T10:30:00.500Z" "id-1" "2024-01-15T10:30:00.501Z")
              (mkCreate "Ada Park" None (num 4200 100) None None None) None].
    reflexivity.
  - intros H.
    destruct (H 4%nat 5%nat _ _ ltac:(lia) eq_refl eq_refl) as (x & y & Hx & Hy & Hxy).
    vm_compute in Hx, Hy. injection Hx as <-. injection Hy as <-.
    by vm_compute in Hxy.
Qed.

(** * Further properties of the service *)

(** ** Lookup by identifier *)

Lemma list_find_cons_hit {A} (P : A -> Prop) `{!forall a, Decision (P a)} x l :
  P x -> list_find P (x :: l) = Some (0%nat, x).
Proof. intros Hx. cbn. by destruct (decide (P x)). Qed.

Lemma list_find_cons_miss {A} (P : A -> Prop) `{!forall a, Decision (P a)} x l :
  ~ P x -> list_find P (x :: l) = prod_map S id <$> list_find P l.
Proof. intros Hx. cbn. by destruct (decide (P x)). Qed.

(** Replacing an element by one that answers a test the same way moves no
    result of a search for that test. *)
Lemma list_find_insert_agree {A} (P : A -> Prop) `{!forall a, Decision (P a)}
    (l : list A) i x y :
  l !! i = Some x -> (P x <-> P y) ->
  list_find P (<[i := y]> l)
  = (fun r => (fst r, if decide (fst r = i) then y else snd r)) <$> list_find P l.
Proof.
  revert i. induction l as [|a l IH]; intros i Hi Hxy; [done|].
  destruct i as [|i]; cbn in Hi.
  - injection Hi as ->. change (<[0%nat := y]> (x :: l)) with (y :: l).
    destruct (decide (P x)) as [Px|Px].
    + rewrite !list_find_cons_hit by tauto. done.
    + rewrite !list_find_cons_miss by tauto.
      destruct (list_find P l) as [[j z]|]; cbn; [|done].
      by destruct (decide (S j = 0%nat)).
  - change (<[S i := y]> (a :: l)) with (a :: <[i := y]> l).
    destruct (decide (P a)) as [Pa|Pa].
    + rewrite !list_find_cons_hit by done. cbn.
      by destruct (decide (0%nat = S i)).
    + rewrite !list_find_cons_miss by done. rewrite (IH i) by done.
      destruct (list_find P l) as [[j z]|]; cbn; [|done].
      destruct (decide (j = i)), (decide (S j = S i)); try done; lia.
Qed.

(** Removing the first element a search finds: a search for anything that
    element does not answer is unchanged, up to the place. *)
Lemma list_find_delete_other {A} (P Q : A -> Prop)
    `{!forall a, Decision (P a)} `{!forall a, Decision (Q a)} (l : list A) i x :
  list_find P l = Some (i, x) -> ~ Q x ->
  snd <$> list_find Q (delete i l) = snd <$> list_find Q l.
Proof.
  revert i. induction l as [|a l IH]; intros i F Qx; [done|].
  destruct (decide (P a)) as [Pa|Pa].
  - rewrite list_find_cons_hit in F by done. injection F as <- <-.
    cbn [delete list_delete]. rewrite (list_find_cons_miss Q) by done.
    by destruct (list_find Q l) as [[? ?]|].
  - rewrite list_find_cons_miss in F by done.
    destruct (list_find P l) as [[j z]|] eqn:E; [|done].
    cbn in F. injection F as <- <-. cbn [delete list_delete].
    destruct (decide (Q a)) as [Qa|Qa].
    + by rewrite !list_find_cons_hit.
    + rewrite !list_find_cons_miss by done.
      specialize (IH j eq_refl Qx).
      destruct (list_find Q (delete j l)) as [[? ?]|],
        (list_find Q l) as [[? ?]|]; cbn in *; congruence.
Qed.

Lemma getOrderById_Some oid s o :
  getOrderById oid s = Some o <->
  exists i, orders s !! i = Some o /\ orderId o = oid
    /\ forall j x, orders s !! j = Some x -> (j < i)%nat -> orderId x <> oid.
Proof.
  unfold getOrderById. split.
  - destruct (list_find (has_id oid) (orders s)) as [[i x]|] eqn:F; [|done].
    intros [= <-]. exists i. by apply list_find_Some in F.
  - intros (i & F). apply (list_find_Some (has_id oid)) in F. by rewrite F.
Qed.

Lemma getOrderById_None oid s :
  getOrderById oid s = None <-> forall o, o ∈ orders s -> orderId o <> oid.
Proof.
  unfold getOrderById. rewrite fmap_None, list_find_None, Forall_forall. done.
Qed.

Lemma with_notes_same o : with_notes o (notes o) = o.
Proof. by destruct o. Qed.

(** The order an update stores, as a term. *)
Lemma updateOrder_stores h oid updateData s i o :
  list_find (has_id oid) (orders s) = Some (i, o) ->
  exists ns,
    fst (updateOrder h oid updateData s)
    = Some (with_notes (merged o updateData (now h)) ns)
    /\ orders (snd (updateOrder h oid updateData s))
       = <[i := with_notes (merged o updateData (now h)) ns]> (orders s).
Proof.
  intros F. unfold updateOrder. rewrite F.
  destruct (statusChanges o updateData) as [st|]; cbn [fst snd orders].
  - by eexists.
  - exists (notes (merged o updateData (now h))). by rewrite with_notes_same.
Qed.

Lemma updateOrder_missing h oid updateData s :
  list_find (has_id oid) (orders s) = None ->
  updateOrder h oid updateData s = (None, s).
Proof. intros F. unfold updateOrder. by rewrite F. Qed.

Lemma fmap_insert_same {A B} (f : A -> B) (l : list A) i x y :
  l !! i = Some x -> f y = f x -> f <$> <[i := y]> l = f <$> l.
Proof.
  intros Hi Hf. rewrite list_fmap_insert, Hf.
  apply list_insert_id. by rewrite list_lookup_fmap, Hi.
Qed.

(** X1.  After a create, a lookup of the identifier of the new order
    answers the new order, also when an older order has the same
    identifier; lookups of other identifiers answer as before; the store
    has one order more. *)
Theorem createOrder_then_lookup h orderData invoiceFile s :
  let o := fst (createOrder h orderData invoiceFile s) in
  let s' := snd (createOrder h orderData invoiceFile s) in
  getOrderById (orderId o) s' = Some o
  /\ (forall oid, oid <> orderId o -> getOrderById oid s' = getOrderById oid s)
  /\ length (orders s') = S (length (orders s)).
Proof.
  cbn zeta. unfold createOrder, getOrderById. cbn [fst snd createNotification orders].
  split; [by rewrite list_find_cons_hit|].
  split; [|done].
  intros oid Hne.
  rewrite list_find_cons_miss by (intros E; apply Hne; symmetry; exact E).
  by destruct (list_find (has_id oid) (orders s)) as [[? ?]|].
Qed.

Lemma updateOrder_lookup_same h oid updateData s i o :
  list_find (has_id oid) (orders s) = Some (i, o) ->
  getOrderById oid (snd (updateOrder h oid updateData s))
  = fst (updateOrder h oid updateData s).
Proof.
  intros F.
  destruct (updateOrder_stores h oid updateData s i o F) as (ns & Er & Es).
  pose proof F as (L & Ho & _)%list_find_Some.
  unfold getOrderById. rewrite Es, Er.
  rewrite (list_find_insert_agree _ _ i o) by done. rewrite F. cbn.
  by destruct (decide (i = i)).
Qed.

Lemma updateOrder_lookup_other h oid updateData s oid' :
  oid' <> oid ->
  getOrderById oid' (snd (updateOrder h oid updateData s)) = getOrderById oid' s.
Proof.
  intros Hne.
  destruct (list_find (has_id oid) (orders s)) as [[i o]|] eqn:F.
  - destruct (updateOrder_stores h oid updateData s i o F) as (ns & Er & Es).
    pose proof F as (L & Ho & _)%list_find_Some.
    unfold getOrderById. rewrite Es.
    rewrite (list_find_insert_agree _ _ i o); [|done|].
    + destruct (list_find (has_id oid') (orders s)) as [[j z]|] eqn:F'; [|done].
      cbn. destruct (decide (j = i)) as [->|]; [|done].
      apply list_find_Some in F' as (L' & Hz & _).
      unfold has_id in *. congruence.
    + unfold has_id in *. cbn. done.
  - by rewrite updateOrder_missing.
Qed.

Lemma updateOrder_ids h oid updateData s :
  orderId <$> orders (snd (updateOrder h oid updateData s)) = orderId <$> orders s.
Proof.
  destruct (list_find (has_id oid) (orders s)) as [[i o]|] eqn:F.
  - destruct (updateOrder_stores h oid updateData s i o F) as (ns & _ & ->).
    pose proof F as (L & _)%list_find_Some.
    by apply (fmap_insert_same _ _ _ o).
  - by rewrite updateOrder_missing.
Qed.

(** X2.  An update of an identifier that a lookup finds returns the order
    it stores: a lookup of the identifier afterwards answers the order
    returned, and lookups of other identifiers answer as before. *)
Theorem updateOrder_then_lookup h oid updateData s o :
  getOrderById oid s = Some o ->
  let r := updateOrder h oid updateData s in
  is_Some (fst r)
  /\ getOrderById oid (snd r) = fst r
  /\ (forall oid', oid' <> oid -> getOrderById oid' (snd r) = getOrderById oid' s).
Proof.
  unfold getOrderById at 1.
  destruct (list_find (has_id oid) (orders s)) as [[i x]|] eqn:F; [|done].
  intros [= ->]. cbn zeta.
  destruct (updateOrder_stores h oid updateData s i o F) as (ns & Er & _).
  split; [by rewrite Er|].
  split; [by eapply updateOrder_lookup_same|].
  intros oid' Hne. by apply updateOrder_lookup_other.
Qed.

Lemma updateOrder_then_lookup_witness :
  getOrderById "ORD-003"
    (snd (updateOrder (mkHost "2024-02-01T08:00:00.000Z" "id-1" "2024-02-01T08:00:00.001Z")
            "ORD-003" (mkUpdate (Some "M. Davis") None None None None None None None)
            initialService))
  = fst (updateOrder (mkHost "2024-02-01T08:00:00.000Z" "id-1" "2024-02-01T08:00:00.001Z")
           "ORD-003" (mkUpdate (Some "M. Davis") None None None None None None None)
           initialService).
Proof.
  eapply (updateOrder_then_lookup _ "ORD-003" _ initialService). reflexivity.
Defined.

(** X3.  No update changes the number of orders, the place of an order, or
    the identifier, order date, creation time or invoice reference of any
    order; orders with another identifier are left as they are; and
    identifiers that name one order each still do so. *)
Theorem updateOrder_keeps h oid updateData s :
  let s' := snd (updateOrder h oid updateData s) in
  orderId <$> orders s' = orderId <$> orders s
  /\ orderDate <$> orders s' = orderDate <$> orders s
  /\ createdAt <$> orders s' = createdAt <$> orders s
  /\ invoiceFileUrl <$> orders s' = invoiceFileUrl <$> orders s
  /\ invoiceFileName <$> orders s' = invoiceFileName <$> orders s
  /\ length (orders s') = length (orders s)
  /\ (forall j x, orders s !! j = Some x -> orderId x <> oid -> orders s' !! j = Some x)
  /\ (unique_ids s -> unique_ids s').
Proof.
  cbn zeta.
  destruct (list_find (has_id oid) (orders s)) as [[i o]|] eqn:F.
  - unfold unique_ids.
    destruct (updateOrder_stores h oid updateData s i o F) as (ns & _ & ->).
    pose proof F as (L & Ho & _)%list_find_Some.
    assert (orderId <$> <[i:=with_notes (merged o updateData (now h)) ns]> (orders s)
            = orderId <$> orders s) as Eid by by apply (fmap_insert_same _ _ _ o).
    split; [done|].
    split; [by apply (fmap_insert_same _ _ _ o)|].
    split; [by apply (fmap_insert_same _ _ _ o)|].
    split; [by apply (fmap_insert_same _ _ _ o)|].
    split; [by apply (fmap_insert_same _ _ _ o)|].
    split; [by rewrite length_insert|].
    split.
    + intros j x Hj Hne. rewrite list_lookup_insert_ne; [done|].
      intros <-. unfold has_id in Ho. congruence.
    + by rewrite Eid.
  - rewrite updateOrder_missing by done. cbn [snd]. repeat split; done.
Qed.

(** X4.  A delete of an identifier that a lookup finds answers [true],
    takes one order out, the first with the identifier, and emits no
    notification; lookups of other identifiers answer as before; and when
    every identifier names one order, the identifier is not found
    afterwards and the others still name one order each. *)
Theorem deleteOrder_removes oid s o :
  getOrderById oid s = Some o ->
  let r := deleteOrder oid s in
  fst r = true
  /\ (length (orders (snd r)) + 1)%nat = length (orders s)
  /\ notifications (snd r) = notifications s
  /\ (forall oid', oid' <> oid -> getOrderById oid' (snd r) = getOrderById oid' s)
  /\ (unique_ids s -> getOrderById oid (snd r) = None /\ unique_ids (snd r)).
Proof.
  unfold getOrderById at 1.
  destruct (list_find (has_id oid) (orders s)) as [[i x]|] eqn:F; [|done].
  intros [= ->]. cbn zeta.
  pose proof F as (L & Ho & _)%list_find_Some.
  unfold deleteOrder. rewrite findIndex_has_id, F. cbn [fmap option_fmap option_map fst snd orders notifications].
  unfold JS.splice1.
  split; [done|].
  split.
  { rewrite length_delete by eauto. apply lookup_lt_Some in L. lia. }
  split; [done|].
  split.
  { intros oid' Hne. unfold getOrderById. cbn [orders].
    apply (list_find_delete_other (has_id oid) (has_id oid') (orders s) i o F).
    unfold has_id in *. congruence. }
  unfold unique_ids. cbn [orders]. intros Hnd.
  rewrite list_fmap_delete.
  split.
  - apply getOrderById_None. cbn [orders]. intros y Hy Ey.
    rewrite <- (take_drop_middle _ _ _ L), fmap_app, fmap_cons in Hnd.
    apply NoDup_app in Hnd as (_ & Hl & Hr).
    apply NoDup_cons in Hr as [Hr _].
    unfold has_id in Ho.
    rewrite delete_take_drop in Hy. apply elem_of_app in Hy as [Hy|Hy].
    + apply (Hl (orderId y)); [by apply list_elem_of_fmap_2|].
      rewrite Ey, Ho. apply list_elem_of_here.
    + apply Hr. rewrite Ho, <- Ey. by apply list_elem_of_fmap_2.
  - eapply sublist_NoDup; [exact Hnd|apply sublist_delete].
Qed.

Lemma deleteOrder_removes_witness :
  fst (deleteOrder "ORD-002" initialService) = true
  /\ getOrderById "ORD-002" (snd (deleteOrder "ORD-002" initialService)) = None.
Proof.
  destruct (deleteOrder_removes "ORD-002" initialService _ eq_refl)
    as (Ht & _ & _ & _ & Hu).
  split; [exact Ht|].
  apply Hu. apply (bool_decide_eq_true_1 (unique_ids _)). by vm_compute.
Defined.

(** ** Notifications *)

Lemma relIndex_neg len (n : nat) :
  (0 < n)%nat -> JS.relIndex len (Qc_of_Z (- Z.of_nat n)) = (len - n)%nat.
Proof.
  intros Hn. unfold JS.relIndex. rewrite ToInteger_of_Z.
  destruct (Z.ltb_spec (- Z.of_nat n) 0); lia.
Qed.

Lemma slice_from_0 {A} (l : list A) (y : Qc) :
  JS.slice l (Qc_of_Z 0) y = take (JS.relIndex (length l) y) l.
Proof.
  unfold JS.slice. rewrite (relIndex_of_nat _ 0). cbn [Nat.min drop].
  by rewrite Nat.sub_0_r.
Qed.

(** X5.  [getNotifications] answers a prefix of the stored notifications,
    newest first: the first [n] for a whole limit [n], the first 10 without
    a limit, and all but the last [n] for the limit [-n]. *)
Theorem getNotifications_prefix s :
  (forall limit, getNotifications limit s `prefix_of` notifications s)
  /\ (forall n : nat,
        getNotifications (Some (Qc_of_nat n)) s = take n (notifications s))
  /\ getNotifications None s = take 10 (notifications s)
  /\ (forall n : nat, (0 < n)%nat ->
        getNotifications (Some (Qc_of_Z (- Z.of_nat n))) s
        = take (length (notifications s) - n) (notifications s)).
Proof.
  unfold getNotifications. split; [|split; [|split]].
  - intros limit. rewrite slice_from_0. apply prefix_take.
  - intros n. apply slice_prefix.
  - apply (slice_prefix _ 10).
  - intros n Hn.
    change (JS.slice (notifications s) (Qc_of_Z 0) (Qc_of_Z (- Z.of_nat n))
            = take (length (notifications s) - n) (notifications s)).
    by rewrite slice_from_0, relIndex_neg.
Qed.

(** X6.  The handler of [GET /api/notifications] never asks for no
    notifications: a limit that reads as 0 or as no number gives the first
    10; a positive limit [n] gives the first [n]. *)
Theorem getNotificationsHandler_limit s :
  getNotificationsHandler None s = take 10 (notifications s)
  /\ getNotificationsHandler (Some 0) s = take 10 (notifications s)
  /\ (forall n : nat, (0 < n)%nat ->
        getNotificationsHandler (Some (Z.of_nat n)) s = take n (notifications s)).
Proof.
  unfold getNotificationsHandler, getNotifications. cbn [default].
  split; [apply (slice_prefix _ 10)|]. split; [apply (slice_prefix _ 10)|].
  intros n Hn. unfold notificationsLimit.
  destruct (decide (Z.of_nat n = 0)); [lia|]. apply slice_prefix.
Qed.

Lemma set_read_idemp n : set_read (set_read n) = set_read n.
Proof. done. Qed.

Lemma markNotificationAsRead_found nid s i n :
  list_find (has_nid nid) (notifications s) = Some (i, n) ->
  markNotificationAsRead nid s
  = (true, {| orders := orders s;
              notifications := <[i := set_read n]> (notifications s) |}).
Proof. intros F. unfold markNotificationAsRead. by rewrite F. Qed.

Lemma markNotificationAsRead_missing nid s :
  list_find (has_nid nid) (notifications s) = None ->
  markNotificationAsRead nid s = (false, s).
Proof. intros F. unfold markNotificationAsRead. by rewrite F. Qed.

(** X7.  [markNotificationAsRead] answers [true] exactly when a stored
    notification has the identifier.  It leaves the orders alone and every
    notification in its place, the same but for the [read] flag; the first
    notification with the identifier is read afterwards; no flag goes back
    to unread; notifications with another identifier are untouched; and a
    second call changes nothing more. *)
Theorem markNotificationAsRead_effect nid s :
  let r := markNotificationAsRead nid s in
  (fst r = true <-> exists n, n ∈ notifications s /\ n_id n = nid)
  /\ orders (snd r) = orders s
  /\ set_read <$> notifications (snd r) = set_read <$> notifications s
  /\ (forall i n, list_find (has_nid nid) (notifications s) = Some (i, n) ->
        notifications (snd r) !! i = Some (set_read n))
  /\ (forall j n, notifications s !! j = Some n ->
        exists n', notifications (snd r) !! j = Some n'
          /\ (n_read n = true -> n_read n' = true)
          /\ (n_id n <> nid -> n' = n))
  /\ markNotificationAsRead nid (snd r) = r.
Proof.
  cbn zeta.
  destruct (list_find (has_nid nid) (notifications s)) as [[i n]|] eqn:F.
  - rewrite (markNotificationAsRead_found _ _ _ _ F). cbn [fst snd orders notifications].
    pose proof F as (L & Hn & _)%list_find_Some.
    split.
    { split; [|done]. intros _. exists n. split; [|done].
      by eapply list_elem_of_lookup_2. }
    split; [done|].
    split; [by apply (fmap_insert_same _ _ _ n)|].
    split.
    { intros i' n' [= <- <-]. apply list_lookup_insert_eq. by eapply lookup_lt_Some. }
    split.
    { intros j m Hj. destruct (decide (j = i)) as [->|Hne].
      - assert (m = n) as -> by congruence.
        exists (set_read n). split; [apply list_lookup_insert_eq; by eapply lookup_lt_Some|].
        split; [done|]. intros Hid. by destruct Hid.
      - exists m. by rewrite list_lookup_insert_ne. }
    unfold markNotificationAsRead. cbn [notifications orders].
    rewrite (list_find_insert_agree _ _ i n) by done. rewrite F. cbn.
    destruct (decide (i = i)); [|done].
    by rewrite list_insert_insert_eq.
  - rewrite (markNotificationAsRead_missing _ _ F). cbn [fst snd].
    split.
    { split; [done|]. intros (n & Hn & Hid).
      apply list_find_None in F. rewrite Forall_forall in F. by destruct (F n Hn). }
    split; [done|]. split; [done|]. split; [done|].
    split; [intros j n Hj; by exists n|].
    by apply markNotificationAsRead_missing.
Qed.

Lemma set_read_of_read n : n_read n = true -> set_read n = n.
Proof. destruct n. cbn. by intros ->. Qed.

(** X8.  Marking a notification as read never raises the number of unread
    notifications: it lowers it by one when the notification found was
    unread, and leaves the whole service as it was when it was read
    already. *)
Theorem markNotificationAsRead_unread nid s :
  let s' := snd (markNotificationAsRead nid s) in
  (length (unread (notifications s')) <= length (unread (notifications s)))%nat
  /\ (forall i n, list_find (has_nid nid) (notifications s) = Some (i, n) ->
        (n_read n = false ->
           S (length (unread (notifications s'))) = length (unread (notifications s)))
        /\ (n_read n = true -> s' = s)).
Proof.
  cbn zeta.
  destruct (list_find (has_nid nid) (notifications s)) as [[i n]|] eqn:F.
  - rewrite (markNotificationAsRead_found _ _ _ _ F). cbn [snd notifications].
    pose proof F as (L & _ & _)%list_find_Some.
    pose proof (lookup_lt_Some _ _ _ L) as Hlt.
    assert (forall x,
              length (unread (<[i := x]> (notifications s)))
              = (length (unread (take i (notifications s)))
                 + length (unread [x])
                 + length (unread (drop (S i) (notifications s))))%nat) as Hsplit.
    { intros x. rewrite insert_take_drop by done. unfold unread.
      rewrite filter_app, filter_cons, !length_app.
      rewrite (filter_cons _ x []), filter_nil.
      destruct (decide (n_read x = false)); cbn; lia. }
    assert (length (unread (notifications s))
            = (length (unread (take i (notifications s)))
               + length (unread [n])
               + length (unread (drop (S i) (notifications s))))%nat) as Hold.
    { rewrite <- (Hsplit n). by rewrite list_insert_id. }
    rewrite Hsplit, Hold.
    assert (length (unread [set_read n]) = 0%nat) as -> by done.
    split; [lia|].
    intros i' n' [= <- <-]. split.
    + intros Hr. unfold unread at 4. rewrite (filter_cons _ n []), filter_nil.
      destruct (decide (n_read n = false)); [cbn; lia|done].
    + intros Hr. rewrite set_read_of_read, list_insert_id by done. by destruct s.
  - rewrite (markNotificationAsRead_missing _ _ F). cbn [snd]. split; [lia|done].
Qed.

(** ** Bulk update *)

Lemma bulkUpdateLoop_acc h k ids updateData acc s :
  bulkUpdateLoop h k ids updateData acc s
  = (acc ++ fst (bulkUpdateLoop h k ids updateData [] s),
     snd (bulkUpdateLoop h k ids updateData [] s)).
Proof.
  revert k acc s. induction ids as [|oid ids IH]; intros k acc s; cbn [bulkUpdateLoop].
  - by rewrite app_nil_r.
  - rewrite IH. rewrite (IH _ (match _ with Some _ => _ | None => _ end)).
    cbn [fst snd]. f_equal.
    destruct (fst (updateOrder (h k) oid updateData s)); [|done].
    by rewrite app_assoc.
Qed.

Lemma bulkUpdateLoop_cons h k oid ids updateData s :
  bulkUpdateLoop h k (oid :: ids) updateData [] s
  = (from_option (fun o => [o]) [] (fst (updateOrder (h k) oid updateData s))
       ++ fst (bulkUpdateLoop h (S k) ids updateData []
                 (snd (updateOrder (h k) oid updateData s))),
     snd (bulkUpdateLoop h (S k) ids updateData []
            (snd (updateOrder (h k) oid updateData s)))).
Proof.
  cbn [bulkUpdateLoop]. by rewrite bulkUpdateLoop_acc.
Qed.

(** The identifier of the order an update returns, and when it returns
    one. *)
Lemma updateOrder_returns h oid updateData s :
  match fst (updateOrder h oid updateData s) with
  | Some o' => orderId o' = oid /\ oid ∈ orderId <$> orders s
  | None => oid ∉ orderId <$> orders s
  end.
Proof.
  destruct (list_find (has_id oid) (orders s)) as [[i o]|] eqn:F.
  - destruct (updateOrder_stores h oid updateData s i o F) as (ns & -> & _).
    apply list_find_Some in F as (L & Ho & _). unfold has_id in Ho.
    split; [done|]. rewrite <- Ho. apply list_elem_of_fmap_2.
    by eapply list_elem_of_lookup_2.
  - rewrite updateOrder_missing by done. cbn.
    apply list_find_None in F. rewrite Forall_forall in F.
    intros (o & -> & Ho)%list_elem_of_fmap. by apply (F o).
Qed.

(** X9.  A bulk update keeps the orders in their places with their
    identifiers, and returns one order for each listed identifier that the
    store has, in the order of the list; identifiers the store lacks are
    passed over. *)
Theorem bulkUpdateOrders_result h orderIds updateData s :
  let r := bulkUpdateOrders h orderIds updateData s in
  orderId <$> orders (snd r) = orderId <$> orders s
  /\ orderId <$> fst r = filter (fun oid => oid ∈ orderId <$> orders s) orderIds.
Proof.
  cbn zeta. unfold bulkUpdateOrders. generalize 0%nat. revert s.
  induction orderIds as [|oid ids IH]; intros s k; [done|].
  rewrite bulkUpdateLoop_cons. cbn [fst snd].
  destruct (IH (snd (updateOrder (h k) oid updateData s)) (S k)) as [IH1 IH2].
  rewrite updateOrder_ids in IH1, IH2.
  split; [done|].
  rewrite fmap_app, IH2, filter_cons.
  pose proof (updateOrder_returns (h k) oid updateData s) as Hr.
  destruct (fst (updateOrder (h k) oid updateData s)) as [o'|].
  - destruct Hr as [E Hin]. destruct (decide _); [|done]. cbn. by rewrite E.
  - destruct (decide _); done.
Qed.

(** X10.  After a bulk update with a status in the payload, a lookup of any
    listed identifier answers an order with that status. *)
Theorem bulkUpdateOrders_status h orderIds updateData s st oid o :
  u_status updateData = Some st ->
  oid ∈ orderIds ->
  getOrderById oid (snd (bulkUpdateOrders h orderIds updateData s)) = Some o ->
  status o = st.
Proof.
  intros Hst. unfold bulkUpdateOrders. generalize 0%nat. revert s.
  assert (forall h' oid' s', (forall x, getOrderById oid s' = Some x -> status x = st) ->
            forall x, getOrderById oid (snd (updateOrder h' oid' updateData s')) = Some x ->
                      status x = st) as Hkeep.
  { intros h' oid' s' Hs' x. destruct (decide (oid = oid')) as [<-|Hne].
    - destruct (list_find (has_id oid) (orders s')) as [[i y]|] eqn:F.
      + rewrite (updateOrder_lookup_same _ _ _ _ _ _ F).
        destruct (updateOrder_stores h' oid updateData s' i y F) as (ns & -> & _).
        intros [= <-]. cbn. by rewrite Hst.
      + rewrite updateOrder_missing by done. apply Hs'.
    - rewrite updateOrder_lookup_other by done. apply Hs'. }
  assert (forall ids s' k, (forall x, getOrderById oid s' = Some x -> status x = st) ->
            forall x, getOrderById oid (snd (bulkUpdateLoop h k ids updateData [] s')) = Some x ->
                      status x = st) as Hloop.
  { induction ids as [|oid' ids IH]; intros s' k Hs'; [done|].
    rewrite bulkUpdateLoop_cons. cbn [snd]. apply IH. by apply Hkeep. }
  induction orderIds as [|oid' ids IH]; intros s k Hin.
  - by apply elem_of_nil in Hin.
  - rewrite bulkUpdateLoop_cons. cbn [snd].
    apply elem_of_cons in Hin as [->|Hin]; [|by apply IH].
    apply Hloop. intros x.
    destruct (list_find (has_id oid') (orders s)) as [[i y]|] eqn:F.
    + rewrite (updateOrder_lookup_same _ _ _ _ _ _ F).
      destruct (updateOrder_stores (h k) oid' updateData s i y F) as (ns & -> & _).
      intros [= <-]. cbn. by rewrite Hst.
    + rewrite updateOrder_missing by done. cbn [snd]. unfold getOrderById.
      by rewrite F.
Qed.

Lemma bulkUpdateOrders_status_witness :
  exists o,
    getOrderById "ORD-002"
      (snd (bulkUpdateOrders
              (fun _ => mkHost "2024-02-01T08:00:00.000Z" "id-1" "2024-02-01T08:00:00.001Z")
              ["ORD-001"; "ORD-404"; "ORD-002"]
              (mkUpdate None None None None (Some cancelled) None None None)
              initialService)) = Some o
    /\ status o = cancelled.
Proof.
  eexists. split; [reflexivity|].
  apply (bulkUpdateOrders_status
           (fun _ => mkHost "2024-02-01T08:00:00.000Z" "id-1" "2024-02-01T08:00:00.001Z")
           ["ORD-001"; "ORD-404"; "ORD-002"]
           (mkUpdate None None None None (Some cancelled) None None None)
           initialService cancelled "ORD-002" _ eq_refl).
  - do 2 apply list_elem_of_further. apply list_elem_of_here.
  - reflexivity.
Defined.

(** ** The ring of notifications *)

Lemma take_app_take {A} (a b : list A) n :
  take n (a ++ take n b) = take n (a ++ b).
Proof.
  rewrite !take_app, take_take. do 2 f_equal. lia.
Qed.

Lemma ring_extends_refl l : (length l <= 100)%nat -> ring_extends l l.
Proof. intros H. exists []. split; [by rewrite take_ge|constructor]. Qed.

Lemma ring_extends_trans l1 l2 l3 :
  ring_extends l1 l2 -> ring_extends l2 l3 -> ring_extends l1 l3.
Proof.
  intros (n1 & -> & H1) (n2 & -> & H2). exists (n2 ++ n1). split.
  - by rewrite take_app_take, app_assoc.
  - by apply Forall_app.
Qed.

Lemma ring_extends_length l l' : ring_extends l l' -> (length l' <= 100)%nat.
Proof. intros (news & -> & _). rewrite length_take. lia. Qed.

Lemma createNotification_ring h d s :
  ring_extends (notifications s) (notifications (createNotification h d s)).
Proof.
  destruct (createNotification_emits h d s) as [_ E]. unfold emitted in E.
  exists [notification_of h d]. split; [done|]. by repeat constructor.
Qed.

Lemma updateOrder_ring h oid updateData s :
  (length (notifications s) <= 100)%nat ->
  ring_extends (notifications s) (notifications (snd (updateOrder h oid updateData s))).
Proof.
  intros Hlen. unfold updateOrder.
  destruct (list_find (has_id oid) (orders s)) as [[i o]|]; [|by apply ring_extends_refl].
  destruct (statusChanges o updateData); cbn [snd notifications].
  - apply createNotification_ring.
  - by apply ring_extends_refl.
Qed.

Lemma bulkUpdateLoop_ring h k ids updateData s :
  (length (notifications s) <= 100)%nat ->
  ring_extends (notifications s)
    (notifications (snd (bulkUpdateLoop h k ids updateData [] s))).
Proof.
  revert k s. induction ids as [|oid ids IH]; intros k s Hlen.
  - by apply ring_extends_refl.
  - rewrite bulkUpdateLoop_cons. cbn [snd].
    pose proof (updateOrder_ring (h k) oid updateData s Hlen) as H1.
    eapply ring_extends_trans; [exact H1|].
    apply IH. by eapply ring_extends_length.
Qed.

Lemma call_ring c s :
  (length (notifications s) <= 100)%nat ->
  is_mark_read c = false ->
  ring_extends (notifications s) (notifications (call s c)).
Proof.
  intros Hlen Hc. destruct c as [h d f|h oid u|oid|h ids u|nid]; cbn [call]; [| | | |done].
  - unfold createOrder. cbn [snd]. apply (createNotification_ring h _ (mkService _ _)).
  - by apply updateOrder_ring.
  - unfold deleteOrder.
    destruct (JS.findIndex _ _); by apply ring_extends_refl.
  - by apply bulkUpdateLoop_ring.
Qed.

Lemma call_cap c s :
  (length (notifications s) <= 100)%nat ->
  (length (notifications (call s c)) <= 100)%nat.
Proof.
  intros Hlen. destruct (is_mark_read c) eqn:Hc.
  - destruct c; try done. cbn [call]. unfold markNotificationAsRead.
    destruct (list_find _ _) as [[i n]|]; cbn [snd notifications]; [|done].
    by rewrite length_insert.
  - eapply ring_extends_length. by apply call_ring.
Qed.

(** X11.  The service never holds more than 100 notifications: no
    sequence of calls takes it from a state with at most 100 to a state
    with more. *)
Theorem notifications_capped cs s :
  (length (notifications s) <= 100)%nat ->
  (length (notifications (calls cs s)) <= 100)%nat.
Proof.
  unfold calls. revert s. induction cs as [|c cs IH]; intros s Hlen; [done|].
  cbn [foldl]. apply IH. by apply call_cap.
Qed.

Lemma notifications_capped_witness :
  (length (notifications
             (calls [CallCreate (mkHost "2024-02-01T08:00:00.000Z" "id-1" "2024-02-01T08:00:00.001Z")
                       (mkCreate "Ada Park" None (num 4200 100) None None None) None;
                     CallMarkRead "id-1"]
                initialService)) <= 100)%nat.
Proof. apply notifications_capped. cbn. lia. Defined.

(** X12.  A call other than [markNotificationAsRead] treats the stored
    notifications as a log: what it leaves is new unread notifications in
    front of the stored ones, in their order and unchanged, cut to the
    first 100. *)
Theorem notifications_log c s :
  (length (notifications s) <= 100)%nat ->
  is_mark_read c = false ->
  exists news,
    notifications (call s c) = take 100 (news ++ notifications s)
    /\ Forall (fun n => n_read n = false) news.
Proof. intros Hlen Hc. by apply call_ring. Qed.

Lemma notifications_log_witness :
  exists news,
    notifications
      (call initialService
         (CallBulkUpdate
            (fun k => mkHost "2024-02-01T08:00:00.000Z" (JS.String_of_nat k) "2024-02-01T08:00:00.001Z")
            ["ORD-001"; "ORD-002"]
            (mkUpdate None None None None (Some cancelled) None None None)))
    = take 100 (news ++ notifications initialService)
    /\ Forall (fun n => n_read n = false) news.
Proof. apply notifications_log; [cbn; lia|reflexivity]. Defined.

(** ** More on the analytics *)

Lemma bump_counts (l : list Order) b st :
  let count (b : StatusBreakdown) :=
    match st with
    | pending => b_pending b
    | processing => b_processing b
    | completed => b_completed b
    | cancelled => b_cancelled b
    end in
  count (foldl (fun b order => bump (status order) b) b l)
  = (count b + length (filter (fun o => status o = st) l))%nat.
Proof.
  cbn zeta. revert b. induction l as [|o l IH]; intros b; cbn [foldl].
  - rewrite filter_nil. cbn. lia.
  - rewrite IH, filter_cons.
    destruct (decide (status o = st)) as [E|E]; cbn [length].
    + rewrite E. destruct st; cbn; lia.
    + destruct (status o), st; cbn; try lia; done.
Qed.

Lemma status_partition (l : list Order) :
  (length (filter (fun o => status o = pending) l)
   + length (filter (fun o => status o = processing) l)
   + length (filter (fun o => status o = completed) l)
   + length (filter (fun o => status o = cancelled) l))%nat
  = length l.
Proof.
  induction l as [|o l IH]; [done|].
  rewrite !filter_cons. cbn [length]. rewrite <- IH.
  destruct (status o);
    repeat match goal with |- context [decide ?P] => destruct (decide P); try done end;
    cbn [length]; lia.
Qed.

(** X13.  The status breakdown counts, for each of the four statuses, the
    orders with that status, and the four counts add up to the number of
    orders. *)
Theorem statusBreakdown_counts s :
  let b := statusBreakdown (getAnalytics s) in
  b_pending b = length (filter (fun o => status o = pending) (orders s))
  /\ b_processing b = length (filter (fun o => status o = processing) (orders s))
  /\ b_completed b = length (filter (fun o => status o = completed) (orders s))
  /\ b_cancelled b = length (filter (fun o => status o = cancelled) (orders s))
  /\ (b_pending b + b_processing b + b_completed b + b_cancelled b)%nat
     = totalOrders (getAnalytics s).
Proof.
  cbn zeta. unfold getAnalytics. cbn [statusBreakdown totalOrders].
  pose proof (bump_counts (orders s) (mkBreakdown 0 0 0 0) pending) as Hp.
  pose proof (bump_counts (orders s) (mkBreakdown 0 0 0 0) processing) as Hr.
  pose proof (bump_counts (orders s) (mkBreakdown 0 0 0 0) completed) as Hc.
  pose proof (bump_counts (orders s) (mkBreakdown 0 0 0 0) cancelled) as Hx.
  cbn in Hp, Hr, Hc, Hx. rewrite Hp, Hr, Hc, Hx.
  repeat split. apply status_partition.
Qed.

Lemma Qc_of_nat_le a b : (a <= b)%nat -> (Qc_of_nat a <= Qc_of_nat b)%Qc.
Proof. intros H. unfold Qc_of_nat. apply (proj1 (Z2Qc_inj_le _ _)). lia. Qed.

Lemma Qc_of_nat_lt a b : (a < b)%nat -> (Qc_of_nat a < Qc_of_nat b)%Qc.
Proof. intros H. unfold Qc_of_nat. apply (proj1 (Z2Qc_inj_lt _ _)). lia. Qed.

Lemma Qc_hundred_pos : (0 < Qc_of_Z 100)%Qc.
Proof. rewrite <- Z2Qc_inj_0. by apply (proj1 (Z2Qc_inj_lt 0 100)). Qed.

Lemma Qc_of_nat_0 : Qc_of_nat 0 = 0%Qc.
Proof. apply Z2Qc_inj_0. Qed.

(** The rate of [c] out of [n > 0], in percent. *)
Lemma percent_facts (c n : nat) :
  (0 < n)%nat -> (c <= n)%nat ->
  let rate := (Qc_of_nat c / Qc_of_nat n * Qc_of_Z 100)%Qc in
  (0 <= rate)%Qc /\ (rate <= Qc_of_Z 100)%Qc
  /\ (rate = Qc_of_Z 100 <-> c = n)
  /\ (rate = Qc_of_Z 0 <-> c = 0%nat).
Proof.
  intros Hn Hc. cbn zeta.
  pose proof Qc_hundred_pos as H100.
  assert (0 < Qc_of_nat n)%Qc as Hn' by (rewrite <- Qc_of_nat_0; by apply Qc_of_nat_lt).
  assert (0 < / Qc_of_nat n)%Qc as Hinv by by apply Qcinv_pos.
  assert (Qc_of_nat n <> 0%Qc) as Hne by (intros E; rewrite E in Hn'; by apply Qclt_not_eq in Hn').
  assert (Qc_of_nat n / Qc_of_nat n = 1)%Qc as Hone by (by apply Qcmult_inv_r).
  assert (forall a b : nat, (a < b)%nat ->
            (Qc_of_nat a / Qc_of_nat n * Qc_of_Z 100
             < Qc_of_nat b / Qc_of_nat n * Qc_of_Z 100)%Qc) as Hmono.
  { intros a b Hab. apply Qcmult_lt_mono_pos_r; [done|].
    unfold Qcdiv. apply Qcmult_lt_mono_pos_r; [done|]. by apply Qc_of_nat_lt. }
  assert (Qc_of_nat n / Qc_of_nat n * Qc_of_Z 100 = Qc_of_Z 100)%Qc as Hfull
    by (rewrite Hone; apply Qcmult_1_l).
  assert (Qc_of_nat 0 / Qc_of_nat n * Qc_of_Z 100 = Qc_of_Z 0)%Qc as Hnone.
  { rewrite Qc_of_nat_0, Z2Qc_inj_0. unfold Qcdiv. by rewrite !Qcmult_0_l. }
  split; [|split; [|split]].
  - destruct (decide (c = 0%nat)) as [->|Hc0].
    + rewrite Hnone, Z2Qc_inj_0. apply Qcle_refl.
    + rewrite <- Z2Qc_inj_0, <- Hnone. apply Qclt_le_weak, Hmono. lia.
  - destruct (decide (c = n)) as [->|Hcn].
    + rewrite Hfull. apply Qcle_refl.
    + rewrite <- Hfull at 2. apply Qclt_le_weak, Hmono. lia.
  - split.
    + intros E. destruct (decide (c = n)) as [|Hcn]; [done|].
      assert (c < n)%nat as Hlt by lia. apply Hmono in Hlt.
      rewrite E, Hfull in Hlt. by apply Qclt_not_eq in Hlt.
    + by intros ->.
  - split.
    + intros E. destruct (decide (c = 0%nat)) as [|Hc0]; [done|].
      assert (0 < c)%nat as Hlt by lia. apply Hmono in Hlt.
      rewrite E, Hnone in Hlt. by apply Qclt_not_eq in Hlt.
    + by intros ->.
Qed.

Lemma filter_length_all {A} (P : A -> Prop) `{!forall a, Decision (P a)} (l : list A) :
  length (filter P l) = length l <-> Forall P l.
Proof.
  induction l as [|a l IH]; [by split; [constructor|]|].
  rewrite filter_cons. pose proof (length_filter P l).
  destruct (decide (P a)); cbn [length].
  - rewrite Forall_cons. split; [intros [= E]; by rewrite <- IH|].
    intros [_ H']. f_equal. by apply IH.
  - split; [lia|]. by intros [? _]%Forall_cons.
Qed.

Lemma filter_length_none {A} (P : A -> Prop) `{!forall a, Decision (P a)} (l : list A) :
  length (filter P l) = 0%nat <-> Forall (fun a => ~ P a) l.
Proof.
  induction l as [|a l IH]; [by split; [constructor|]|].
  rewrite filter_cons.
  destruct (decide (P a)); cbn [length].
  - split; [done|]. by intros [? _]%Forall_cons.
  - rewrite Forall_cons, IH. tauto.
Qed.

(** X14.  The completion rate lies between 0 and 100; it is 100 exactly
    when the store has orders and all are completed, and 0 exactly when no
    order is completed. *)
Theorem completionRate_range s :
  let rate := completionRate (getAnalytics s) in
  (0 <= rate)%Qc /\ (rate <= Qc_of_Z 100)%Qc
  /\ (rate = Qc_of_Z 100 <->
      orders s <> [] /\ Forall (fun o => status o = completed) (orders s))
  /\ (rate = Qc_of_Z 0 <-> Forall (fun o => status o <> completed) (orders s)).
Proof.
  cbn zeta. unfold getAnalytics. cbn [completionRate].
  pose proof (length_filter (fun o => status o = completed) (orders s)) as Hc.
  destruct (Nat.ltb_spec 0 (length (orders s))) as [Hn|Hn].
  - destruct (percent_facts _ _ Hn Hc) as (H0 & H1 & H2 & H3).
    split; [done|]. split; [done|].
    rewrite H2, H3, filter_length_all, filter_length_none.
    split; [|done]. split; [|tauto]. intros H. split; [|done].
    intros E. rewrite E in Hn. cbn in Hn. lia.
  - assert (orders s = []) as -> by (destruct (orders s); [done|cbn in Hn; lia]).
    rewrite !Z2Qc_inj_0.
    split; [apply Qcle_refl|].
    split; [apply Qclt_le_weak; rewrite <- Z2Qc_inj_0; apply Qc_hundred_pos|].
    split.
    + split; [|by intros [? _]]. intros E. symmetry in E.
      pose proof Qc_hundred_pos as H. rewrite <- E in H. by apply Qclt_not_eq in H.
    + split; [constructor|done].
Qed.

(** ** Grouped totals *)


Lemma map_set_keys {V} k (v : V) (m : list (string * V)) :
  (map_set k v m).*1 = if decide (k ∈ m.*1) then m.*1 else m.*1 ++ [k].
Proof.
  induction m as [|[k0 v0] m IH]; cbn.
  - destruct (decide _) as [H|_]; [by destruct (not_elem_of_nil k)|done].
  - destruct (decide (k0 = k)) as [->|Hne]; cbn.
    + by rewrite decide_True by apply list_elem_of_here.
    + rewrite IH.
      destruct (decide (k ∈ m.*1)) as [Hin|Hin], (decide (k ∈ k0 :: m.*1)) as [Hin'|Hin'];
        try done.
      * destruct Hin'. by apply list_elem_of_further.
      * apply elem_of_cons in Hin' as [->|?]; done.
Qed.






Lemma grouped_snoc key l o :
  grouped key (l ++ [o]) = tally (key o) o (grouped key l).
Proof. unfold grouped. by rewrite foldl_app. Qed.


(** The keys stand in the order in which they were first seen. *)
Lemma grouped_keys key l :
  (grouped key l).*1 = reverse (remove_dups (reverse (key <$> l))).
Proof.
  induction l as [|o l IH] using rev_ind; [done|].
  rewrite grouped_snoc. unfold tally. rewrite map_set_keys, IH.
  rewrite fmap_app, reverse_app. cbn [fmap list_fmap reverse rev_append remove_dups].
  change (rev_append [] [key o]) with [key o]. cbn [app].
  cbn [remove_dups].
  destruct (decide (key o ∈ reverse (remove_dups (reverse (key <$> l))))) as [Hin|Hin];
    rewrite elem_of_reverse, elem_of_remove_dups in Hin;
    destruct (decide_rel elem_of (key o) (reverse (key <$> l))) as [Hin'|Hin']; try done.
  by rewrite reverse_cons.
Qed.





(** *** The comparator of the ranking *)






(** ** The top customers *)

Lemma calculateTopCustomers_take s :
  calculateTopCustomers s
  = take 10
      (JS.sort (fun a b => sign (tc_totalRevenue b - tc_totalRevenue a)%Qc)
         ((fun e => {| tc_customerName := fst e;
                       tc_totalOrders := t_orders (snd e);
                       tc_totalRevenue := t_revenue (snd e) |}) <$> customerData s)).
Proof. apply (slice_prefix _ 10). Qed.



Lemma remove_dups_reverse_length {A} `{EqDecision A} (l : list A) :
  length (remove_dups (reverse l)) = length (remove_dups l).
Proof.
  apply Permutation_length, NoDup_Permutation; [apply NoDup_remove_dups..|].
  intros x. by rewrite !elem_of_remove_dups, elem_of_reverse.
Qed.



(** ** Revenue by month *)

Lemma tally_sum_orders k o m :
  sum_list ((fun e => t_orders (snd e)) <$> tally k o m)
  = S (sum_list ((fun e => t_orders (snd e)) <$> m)).
Proof.
  unfold tally. induction m as [|[k0 v0] m IH]; cbn.
  - done.
  - destruct (decide (k0 = k)) as [->|Hne]; cbn.
    + lia.
    + rewrite IH. lia.
Qed.

(** The entries of the map share out the orders. *)
Lemma grouped_sum_orders key l :
  sum_list ((fun e => t_orders (snd e)) <$> grouped key l) = length l.
Proof.
  induction l as [|o l IH] using rev_ind; [done|].
  rewrite grouped_snoc, tally_sum_orders, IH, length_app. cbn. lia.
Qed.


Section MonthsFacts.
Context (monthOf : string -> option string) (localeCompare : string -> string -> Z).

Lemma monthly_fold_None l :
  foldl (fun acc order =>
           m ← acc;
           month ← monthOf (orderDate order);
           Some (tally month order m)) None l = None.
Proof. by induction l. Qed.

Lemma monthly_fold_fail l acc :
  Exists (fun o => monthOf (orderDate o) = None) l ->
  foldl (fun acc order =>
           m ← acc;
           month ← monthOf (orderDate order);
           Some (tally month order m)) acc l = None.
Proof.
  intros H. revert acc. induction H as [o l Ho|o l Hl IH]; intros acc; cbn [foldl].
  - rewrite Ho. destruct acc; cbn; apply monthly_fold_None.
  - apply IH.
Qed.

Lemma monthly_fold_Some l m0 :
  Forall (fun o => is_Some (monthOf (orderDate o))) l ->
  foldl (fun acc order =>
           m ← acc;
           month ← monthOf (orderDate order);
           Some (tally month order m)) (Some m0) l
  = Some (foldl (fun m order => tally (month_key monthOf order) order m) m0 l).
Proof.
  intros H. revert m0. induction H as [|o l [mo Hmo] Hl IH]; intros m0; [done|].
  cbn [foldl]. unfold month_key at 2. rewrite Hmo. cbn. apply IH.
Qed.

Lemma readable_or_not (l : list Order) :
  Forall (fun o => is_Some (monthOf (orderDate o))) l
  \/ Exists (fun o => monthOf (orderDate o) = None) l.
Proof.
  induction l as [|o l [IH|IH]].
  - left. constructor.
  - destruct (monthOf (orderDate o)) as [mo|] eqn:E.
    + left. constructor; [by rewrite E|done].
    + right. by constructor.
  - right. by constructor.
Qed.


Lemma calculateRevenueByMonth_readable s :
  Forall (fun o => is_Some (monthOf (orderDate o))) (orders s) ->
  calculateRevenueByMonth monthOf localeCompare s
  = Some (JS.sort (fun a b => localeCompare (m_month a) (m_month b))
            ((fun e => {| m_month := fst e;
                          m_revenue := t_revenue (snd e);
                          m_orders := t_orders (snd e) |})
               <$> grouped (month_key monthOf) (orders s))).
Proof.
  intros H. unfold calculateRevenueByMonth, monthlyData.
  by rewrite (monthly_fold_Some _ [] H).
Qed.

Lemma calculateRevenueByMonth_None s :
  calculateRevenueByMonth monthOf localeCompare s = None
  <-> Exists (fun o => monthOf (orderDate o) = None) (orders s).
Proof.
  split.
  - intros E. destruct (readable_or_not (orders s)) as [H|H]; [|done].
    by rewrite calculateRevenueByMonth_readable in E.
  - intros H. unfold calculateRevenueByMonth, monthlyData.
    by rewrite monthly_fold_fail.
Qed.

(** X17.  The analytics fail exactly when the store holds an order whose
    date the host cannot read: the grouping by month throws on it.
    Otherwise they are the five figures with the rows of the two
    groupings. *)
Theorem getAnalyticsReport_throws s :
  (getAnalyticsReport monthOf localeCompare s = None
   <-> Exists (fun o => monthOf (orderDate o) = None) (orders s))
  /\ (forall r, getAnalyticsReport monthOf localeCompare s = Some r ->
        figures r = getAnalytics s
        /\ calculateRevenueByMonth monthOf localeCompare s = Some (revenueByMonth r)
        /\ topCustomers r = calculateTopCustomers s).
Proof.
  unfold getAnalyticsReport. split.
  - rewrite <- calculateRevenueByMonth_None.
    by destruct (calculateRevenueByMonth monthOf localeCompare s).
  - intros r. destruct (calculateRevenueByMonth monthOf localeCompare s); [|done].
    by intros [= <-].
Qed.


(** X19.  When every order has a readable date, the order counts of the
    rows of the grouping by month add up to the number of orders of the
    analytics: every order is counted in one month. *)
Theorem calculateRevenueByMonth_totals s :
  Forall (fun o => is_Some (monthOf (orderDate o))) (orders s) ->
  exists rows, calculateRevenueByMonth monthOf localeCompare s = Some rows
    /\ sum_list (m_orders <$> rows) = totalOrders (getAnalytics s).
Proof.
  intros H. eexists. split; [by apply calculateRevenueByMonth_readable|].
  rewrite sort_perm, <- list_fmap_compose.
  apply (grouped_sum_orders (month_key monthOf) (orders s)).
Qed.

End MonthsFacts.


Lemma calculateRevenueByMonth_totals_witness :
  exists rows,
    calculateRevenueByMonth (fun d => Some (String.substring 0 7 d))
      (fun a b => match String.compare a b with Lt => -1 | Eq => 0 | Gt => 1 end)
      initialService = Some rows
    /\ sum_list (m_orders <$> rows) = totalOrders (getAnalytics initialService).
Proof.
  apply (calculateRevenueByMonth_totals (fun d => Some (String.substring 0 7 d))).
  apply Forall_forall. intros o _. by eexists.
Defined.

(** ** More on the queries *)

Lemma slice_sublist {A} (l : list A) (x y : Qc) : JS.slice l x y `sublist_of` l.
Proof.
  unfold JS.slice. cbn zeta. etrans; [apply sublist_take|apply sublist_drop].
Qed.

Lemma slice_nil {A} (x y : Qc) : JS.slice ([] : list A) x y = [].
Proof. unfold JS.slice. cbn zeta. by rewrite drop_nil, take_nil. Qed.

Lemma sortedOrders_elem D q s o :
  o ∈ sortedOrders D q s <-> passes D q o = true /\ o ∈ orders s.
Proof.
  unfold sortedOrders. rewrite sort_perm, filteredOrders_passes, list_elem_of_filter.
  by rewrite Is_true_true.
Qed.

(** X20.  Whatever the page and the limit of a query, also a page below 1
    or a negative limit, the page returned is a part of the filtered and
    sorted sequence in its order: every order of it is in the store and
    passes the filters, and it is not longer than the total, which is not
    more than the store holds. *)
Theorem getOrders_page_sound D q s :
  let r := getOrders D q s in
  page_orders r `sublist_of` sortedOrders D q s
  /\ Forall (fun o => o ∈ orders s /\ passes D q o = true) (page_orders r)
  /\ (length (page_orders r) <= total r <= length (orders s))%nat.
Proof.
  cbn zeta.
  assert (page_orders (getOrders D q s) `sublist_of` sortedOrders D q s) as Hsub
    by apply slice_sublist.
  split; [done|]. split.
  - apply Forall_forall. intros o Ho.
    apply (elem_of_sublist _ _ _ Ho) in Hsub.
    apply sortedOrders_elem in Hsub. tauto.
  - split.
    + by apply sublist_length in Hsub.
    + unfold getOrders, sortedOrders. cbn [total].
      rewrite sort_length, filteredOrders_passes. apply length_filter.
Qed.

Lemma passes_date_bound D q o d :
  date_bound q d -> passes D q o = true ->
  is_Some (D (orderDate o)) /\ is_Some (D d).
Proof.
  intros [Hd Hb]. unfold passes. rewrite !andb_true_iff.
  intros [[[_ _] Hfrom] Hto].
  destruct d as [|c d]; [done|].
  assert (forall a b, date_ge D a b = true -> is_Some (D a) /\ is_Some (D b)) as Hge.
  { intros a b. unfold date_ge. by destruct (D a), (D b). }
  destruct Hb as [Hq|Hq].
  - unfold passes_dateFrom in Hfrom. rewrite Hq in Hfrom. by apply Hge in Hfrom.
  - unfold passes_dateTo in Hto. rewrite Hq in Hto. apply Hge in Hto. tauto.
Qed.

(** X21.  Under a date bound, no order comes back whose date the host
    cannot read; and when the bound itself cannot be read the result is
    empty, with total 0, not an error. *)
Theorem getOrders_date_bound D q s d :
  date_bound q d ->
  Forall (fun o => is_Some (D (orderDate o))) (sortedOrders D q s)
  /\ (D d = None -> getOrders D q s = {| page_orders := []; total := 0 |}).
Proof.
  intros Hb. split.
  - apply Forall_forall. intros o [Ho _]%sortedOrders_elem.
    by destruct (passes_date_bound D q o d Hb Ho).
  - intros Hd.
    assert (sortedOrders D q s = []) as E.
    { destruct (sortedOrders D q s) as [|o l] eqn:E; [done|].
      assert (o ∈ sortedOrders D q s) as Ho by (rewrite E; apply list_elem_of_here).
      apply sortedOrders_elem in Ho as [Ho _].
      destruct (passes_date_bound D q o d Hb Ho) as [_ [x Hx]]. congruence. }
    unfold getOrders. rewrite E. cbn zeta. by rewrite slice_nil.
Qed.

Lemma getOrders_date_bound_witness :
  Forall (fun o => is_Some (ISO.parse (orderDate o)))
    (sortedOrders ISO.parse
       (mkQuery (Qc_of_Z 1) (Qc_of_Z 10) None None by_orderDate desc (Some "yesterday") None)
       initialService)
  /\ getOrders ISO.parse
       (mkQuery (Qc_of_Z 1) (Qc_of_Z 10) None None by_orderDate desc (Some "yesterday") None)
       initialService
     = {| page_orders := []; total := 0 |}.
Proof.
  destruct (getOrders_date_bound ISO.parse
              (mkQuery (Qc_of_Z 1) (Qc_of_Z 10) None None by_orderDate desc
                 (Some "yesterday") None)
              initialService "yesterday") as [H1 H2].
  - split; [done|]. by left.
  - split; [exact H1|]. by apply H2.
Defined.

(** X22.  An empty search term and an empty date bound are no filters: the
    query answers as the query without them. *)
Theorem getOrders_effective D q s :
  getOrders D q s = getOrders D (effective_query q) s.
Proof.
  assert (sortedOrders D q s = sortedOrders D (effective_query q) s) as E.
  { unfold sortedOrders. rewrite !filteredOrders_passes.
    change (comparator (effective_query q)) with (comparator q).
    f_equal. apply list_filter_iff. intros o.
    unfold passes, passes_status, passes_search, passes_dateFrom, passes_dateTo.
    cbn [effective_query q_status search dateFrom dateTo].
    by destruct (search q) as [[|??]|], (dateFrom q) as [[|??]|], (dateTo q) as [[|??]|]. }
  unfold getOrders. by rewrite E.
Qed.

(** ** The export *)

(** X23.  The export without a page or a limit among the filters is the
    first 1000 orders of the filtered sequence, newest text of the order
    date first unless the filters sort otherwise: all the orders that pass
    the filters when these are at most 1000, and 1000 of them when they
    are more. *)
Theorem getOrdersForExport_cut D filters s :
  filters ≫= p_page = None ->
  filters ≫= p_limit = None ->
  let passing := filter (fun o => passes D (exportQuery filters) o) (orders s) in
  getOrdersForExport D filters s
  = take 1000 (sortedOrders D (exportQuery filters) s)
  /\ ((length passing <= 1000)%nat -> getOrdersForExport D filters s ≡ₚ passing)
  /\ ((1000 < length passing)%nat -> length (getOrdersForExport D filters s) = 1000%nat).
Proof.
  intros Hp Hl. cbn zeta.
  assert (getOrdersForExport D filters s
          = take 1000 (sortedOrders D (exportQuery filters) s)) as E.
  { unfold getOrdersForExport.
    rewrite (getOrders_page_whole D (exportQuery filters) s 1 1000); [done| | |lia].
    - unfold exportQuery. cbn [page]. by rewrite Hp.
    - unfold exportQuery. cbn [limit]. by rewrite Hl. }
  assert (sortedOrders D (exportQuery filters) s
          ≡ₚ filter (fun o => passes D (exportQuery filters) o) (orders s)) as Hperm.
  { unfold sortedOrders. by rewrite sort_perm, filteredOrders_passes. }
  split; [done|]. rewrite E. split.
  - intros Hlen. rewrite take_ge; [done|]. by rewrite Hperm.
  - intros Hlen. rewrite length_take, Hperm. lia.
Qed.

Lemma getOrdersForExport_cut_witness :
  getOrdersForExport ISO.parse
    (Some (mkPartial None None (Some completed) None None None None None)) initialService
  = take 1000
      (sortedOrders ISO.parse
         (exportQuery (Some (mkPartial None None (Some completed) None None None None None)))
         initialService)
  /\ getOrdersForExport ISO.parse
       (Some (mkPartial None None (Some completed) None None None None None)) initialService
     ≡ₚ filter (fun o => passes ISO.parse
                  (exportQuery
                     (Some (mkPartial None None (Some completed) None None None None None))) o)
          (orders initialService).
Proof.
  destruct (getOrdersForExport_cut ISO.parse
              (Some (mkPartial None None (Some completed) None None None None None))
              initialService) as (E & Hall & _); [done..|].
  split; [exact E|]. apply Hall. vm_compute. lia.
Defined.

(** ** Identifiers without deletes *)

Lemma zeros_read k s d :
  NilEmpty.uint_of_string s = Some d ->
  exists d',
    NilEmpty.uint_of_string (string_of_list_ascii (replicate k "0"%char) +:+ s) = Some d'
    /\ Nat.of_uint d' = Nat.of_uint d.
Proof.
  intros H. induction k as [|k (d' & E & V)]; [by exists d|].
  exists (Decimal.D0 d').
  change (string_of_list_ascii (replicate (S k) "0"%char) +:+ s)
    with (String "0" (string_of_list_ascii (replicate k "0"%char) +:+ s)).
  cbn [NilEmpty.uint_of_string]. rewrite E. by split.
Qed.

Lemma String_of_nat_read n :
  exists d, NilEmpty.uint_of_string (JS.String_of_nat n) = Some d /\ Nat.of_uint d = n.
Proof.
  unfold JS.String_of_nat, NilZero.string_of_uint.
  pose proof (Unsigned.of_to n) as V.
  destruct (Nat.to_uint n) as [|u|u|u|u|u|u|u|u|u|u] eqn:E;
    [by exists (Decimal.D0 Decimal.Nil)|..];
    (eexists; split; [apply NilEmpty.usu|exact V]).
Qed.

Lemma orderIdOf_inj a b : orderIdOf a = orderIdOf b -> a = b.
Proof.
  unfold orderIdOf. intros [= E]. change ("" +:+ ?x) with x in E.
  unfold JS.padStart in E.
  destruct (String_of_nat_read a) as (da & Ra & Va).
  destruct (String_of_nat_read b) as (db & Rb & Vb).
  destruct (zeros_read (3 - String.length (JS.String_of_nat a)) _ _ Ra) as (da' & Ra' & Va').
  destruct (zeros_read (3 - String.length (JS.String_of_nat b)) _ _ Rb) as (db' & Rb' & Vb').
  rewrite E, Rb' in Ra'. injection Ra' as <-. congruence.
Qed.

Lemma numbered_unique s : numbered s -> unique_ids s.
Proof.
  unfold numbered, unique_ids. intros ->.
  apply (NoDup_fmap_2_strong orderIdOf); [|apply NoDup_seq].
  intros x y _ _. apply orderIdOf_inj.
Qed.

Lemma bulkUpdateLoop_ids h k orderIds updateData acc s :
  orderId <$> orders (snd (bulkUpdateLoop h k orderIds updateData acc s))
  = orderId <$> orders s.
Proof.
  revert k acc s. induction orderIds as [|oid ids IH]; intros k acc s; [done|].
  cbn [bulkUpdateLoop]. by rewrite IH, updateOrder_ids.
Qed.

Lemma numbered_same_ids s s' :
  orderId <$> orders s' = orderId <$> orders s -> numbered s -> numbered s'.
Proof.
  unfold numbered. intros E H.
  assert (length (orders s') = length (orders s)) as ->
    by (rewrite <- (length_fmap orderId (orders s')), E; apply length_fmap).
  by rewrite E.
Qed.

Lemma call_numbered c s : is_delete c = false -> numbered s -> numbered (call s c).
Proof.
  intros Hc H. destruct c as [h orderData invoiceFile|h oid updateData|oid|h ids updateData|nid];
    cbn [call]; [|by eapply numbered_same_ids; [apply updateOrder_ids|]|done| |].
  - unfold numbered in *. unfold createOrder.
    cbn [snd createNotification orders fmap list_fmap length orderId].
    fold (orderIdOf (length (orders s) + 1)).
    rewrite seq_S, fmap_app, <- H. cbn [fmap list_fmap].
    rewrite Nat.add_comm. apply Permutation_cons_append.
  - eapply numbered_same_ids; [|done]. apply bulkUpdateLoop_ids.
  - unfold markNotificationAsRead.
    by destruct (list_find (has_nid nid) (notifications s)) as [[i n]|].
Qed.

(** X24.  As long as nothing is deleted, [createOrder] gives every order an
    identifier of its own: when the identifiers of the store are those of
    the orders 1 to [n], for its [n] orders, they are so again after any
    sequence of calls without a delete, and no two orders share one. *)
Theorem ids_unique_without_delete cs s :
  numbered s ->
  Forall (fun c => is_delete c = false) cs ->
  numbered (calls cs s) /\ unique_ids (calls cs s).
Proof.
  intros Hs Hcs. assert (numbered (calls cs s)) as H.
  { unfold calls. revert s Hs. induction Hcs as [|c cs Hc Hcs IH]; intros s Hs; [done|].
    cbn [foldl]. apply IH. by apply call_numbered. }
  split; [done|]. by apply numbered_unique.
Qed.

Lemma ids_unique_without_delete_witness :
  numbered
    (calls [CallCreate (mkHost "2024-02-01T08:00:00.000Z" "id-1" "2024-02-01T08:00:00.001Z")
              (mkCreate "Ada Park" None (num 4200 100) None None None) None;
            CallUpdate (mkHost "2024-02-02T08:00:00.000Z" "id-2" "2024-02-02T08:00:00.001Z")
              "ORD-006" (mkUpdate None None None None (Some completed) None None None);
            CallCreate (mkHost "2024-02-03T08:00:00.000Z" "id-3" "2024-02-03T08:00:00.001Z")
              (mkCreate "Ben Okoro" None (num 1999 100) None None None) None]
       initialService)
  /\ unique_ids
    (calls [CallCreate (mkHost "2024-02-01T08:00:00.000Z" "id-1" "2024-02-01T08:00:00.001Z")
              (mkCreate "Ada Park" None (num 4200 100) None None None) None;
            CallUpdate (mkHost "2024-02-02T08:00:00.000Z" "id-2" "2024-02-02T08:00:00.001Z")
              "ORD-006" (mkUpdate None None None None (Some completed) None None None);
            CallCreate (mkHost "2024-02-03T08:00:00.000Z" "id-3" "2024-02-03T08:00:00.001Z")
              (mkCreate "Ben Okoro" None (num 1999 100) None None None) None]
       initialService).
Proof.
  apply ids_unique_without_delete.
  - unfold numbered. by vm_compute.
  - by repeat constructor.
Defined.

(** ** Calls in sequence *)

Lemma merged_again o updateData now' ns :
  u_notes updateData = None ->
  merged (with_notes (merged o updateData now') ns) updateData now'
  = with_notes (merged o updateData now') ns.
Proof.
  intros Hn. unfold merged, with_notes. cbn. rewrite Hn. cbn.
  by destruct (u_customerName updateData), (u_customerEmail updateData),
    (u_orderAmount updateData), (u_description updateData), (u_status updateData),
    (u_paymentMethod updateData), (u_shippingAddress updateData).
Qed.

Lemma statusChanges_settled o updateData now' ns :
  statusChanges (with_notes (merged o updateData now') ns) updateData = None.
Proof.
  unfold statusChanges. destruct (u_status updateData) as [st|] eqn:E; [|done].
  cbn. rewrite E. cbn. by rewrite decide_True.
Qed.

(** X25.  An update with no notes in the payload, made a second time at
    the same reading of the clock, returns the same order and leaves the
    service as the first did: the status note and the notification are
    written once. *)
Theorem updateOrder_twice h oid updateData s :
  u_notes updateData = None ->
  updateOrder h oid updateData (snd (updateOrder h oid updateData s))
  = updateOrder h oid updateData s.
Proof.
  intros Hn.
  destruct (list_find (has_id oid) (orders s)) as [[i o]|] eqn:F.
  - pose proof F as (L & Ho & _)%list_find_Some.
    assert (forall ns N,
              updateOrder h oid updateData
                {| orders := <[i := with_notes (merged o updateData (now h)) ns]> (orders s);
                   notifications := N |}
              = (Some (with_notes (merged o updateData (now h)) ns),
                 {| orders := <[i := with_notes (merged o updateData (now h)) ns]> (orders s);
                    notifications := N |})) as Hagain.
    { intros ns N. unfold updateOrder at 1. cbn [orders notifications].
      rewrite (list_find_insert_agree (has_id oid) (orders s) i o) by done.
      rewrite F. cbn [fmap option_fmap option_map fst snd].
      rewrite decide_True by done.
      rewrite statusChanges_settled, merged_again by done.
      by rewrite list_insert_insert_eq. }
    unfold updateOrder at 2 3. rewrite F.
    destruct (statusChanges o updateData) as [st|]; cbn [snd createNotification orders notifications].
    + apply Hagain.
    + rewrite <- (with_notes_same (merged o updateData (now h))). apply Hagain.
  - rewrite (updateOrder_missing h oid updateData s F). cbn [snd].
    by apply updateOrder_missing.
Qed.

Lemma updateOrder_twice_witness :
  updateOrder (mkHost "2024-02-01T08:00:00.000Z" "id-1" "2024-02-01T08:00:00.001Z")
    "ORD-003" (mkUpdate None None None None (Some completed) None None None)
    (snd (updateOrder (mkHost "2024-02-01T08:00:00.000Z" "id-1" "2024-02-01T08:00:00.001Z")
            "ORD-003" (mkUpdate None None None None (Some completed) None None None)
            initialService))
  = updateOrder (mkHost "2024-02-01T08:00:00.000Z" "id-1" "2024-02-01T08:00:00.001Z")
      "ORD-003" (mkUpdate None None None None (Some completed) None None None)
      initialService.
Proof. by apply updateOrder_twice. Defined.

(** X26.  A create shows in the analytics as one order more, a pending
    one, and nothing else: the revenue and the counts of the other
    statuses stay. *)
Theorem createOrder_analytics h orderData invoiceFile s :
  let a := getAnalytics s in
  let a' := getAnalytics (snd (createOrder h orderData invoiceFile s)) in
  totalOrders a' = S (totalOrders a)
  /\ totalRevenue a' = totalRevenue a
  /\ b_pending (statusBreakdown a') = S (b_pending (statusBreakdown a))
  /\ b_processing (statusBreakdown a') = b_processing (statusBreakdown a)
  /\ b_completed (statusBreakdown a') = b_completed (statusBreakdown a)
  /\ b_cancelled (statusBreakdown a') = b_cancelled (statusBreakdown a).
Proof.
  cbn zeta. unfold createOrder. cbn [snd].
  set (o := mkOrder _ _ _ _ _ _ pending _ _ _ _ _ _ _).
  unfold getAnalytics.
  cbn [totalOrders totalRevenue statusBreakdown createNotification orders].
  split; [done|]. split.
  { by rewrite filter_cons. }
  pose proof (fun st b => bump_counts (o :: orders s) b st) as H'.
  pose proof (fun st b => bump_counts (orders s) b st) as H.
  cbn zeta in H, H'.
  rewrite (H' pending), (H' processing), (H' completed), (H' cancelled).
  rewrite (H pending), (H processing), (H completed), (H cancelled).
  rewrite !filter_cons. cbn [status o].
  repeat match goal with |- context [decide ?P] => destruct (decide P); try done end.
Qed.

Lemma sum_list_take_le (l : list nat) n : (sum_list (take n l) <= sum_list l)%nat.
Proof.
  revert n. induction l as [|x l IH]; intros [|n]; cbn; try lia.
  specialize (IH n). lia.
Qed.

(** X27.  The order counts of the rows of the top customers never add up
    to more than the number of orders of the analytics, and with at most
    ten distinct customers in the store they add up to it: every order is
    counted for one customer. *)
Theorem calculateTopCustomers_totals s :
  (sum_list (tc_totalOrders <$> calculateTopCustomers s)
   <= totalOrders (getAnalytics s))%nat
  /\ ((length (remove_dups (customerName <$> orders s)) <= 10)%nat ->
      sum_list (tc_totalOrders <$> calculateTopCustomers s)
      = totalOrders (getAnalytics s)).
Proof.
  rewrite calculateTopCustomers_take.
  pose proof (grouped_sum_orders customerName (orders s)) as H.
  split.
  - rewrite fmap_take. etrans; [apply sum_list_take_le|].
    rewrite sort_perm, <- list_fmap_compose. cbn [totalOrders getAnalytics].
    by rewrite <- H.
  - intros Hlen. rewrite take_ge.
    + rewrite sort_perm, <- list_fmap_compose. exact H.
    + rewrite sort_length, length_fmap, <- (length_fmap fst (customerData s)).
      unfold customerData. fold (grouped customerName (orders s)).
      by rewrite grouped_keys, length_reverse, remove_dups_reverse_length.
Qed.

Lemma calculateTopCustomers_totals_witness :
  sum_list (tc_totalOrders <$> calculateTopCustomers initialService)
  = totalOrders (getAnalytics initialService).
Proof.
  destruct (calculateTopCustomers_totals initialService) as [_ H].
  apply H. vm_compute. lia.
Defined.
